(** * Tuffy engine adapter (srli/engine/tuffy/docker.py): text marshalling
      and output parsing, embedded as executable Rocq functions.

    Python [str] values are modelled as [string] over 8-bit characters; the
    character classes below are the ASCII parts of Python's classes.
    Exceptions are values of [exn]; a computation that may raise returns
    [result].  Python dicts are [gmap]s; lists are [list]s. *)

From Stdlib Require Import Ascii String ZArith Lia Bool.
From stdpp Require Import base option list gmap strings.

(** ** Python string primitives *)

Module Str.

Definition code (c : ascii) : nat := nat_of_ascii c.

Definition in_range (lo hi : nat) (c : ascii) : bool :=
  (lo <=? code c)%nat && (code c <=? hi)%nat.

(** [str.isspace] on one ASCII character: TAB..CR, FS..US and the space. *)
Definition is_space (c : ascii) : bool :=
  in_range 9 13 c || in_range 28 32 c.

Definition is_digit (c : ascii) : bool := in_range 48 57 c.
Definition is_upper (c : ascii) : bool := in_range 65 90 c.
Definition is_lower (c : ascii) : bool := in_range 97 122 c.

(** The class [\w]. *)
Definition is_word (c : ascii) : bool :=
  is_digit c || is_upper c || is_lower c || (code c =? 95)%nat.

Definition lower_char (c : ascii) : ascii :=
  if is_upper c then ascii_of_nat (code c + 32) else c.
Definition upper_char (c : ascii) : ascii :=
  if is_lower c then ascii_of_nat (code c - 32) else c.

Fixpoint map (f : ascii -> ascii) (s : string) : string :=
  match s with
  | EmptyString => EmptyString
  | String c s' => String (f c) (map f s')
  end.

(** [s.lower()] and [s.upper()]. *)
Definition lower : string -> string := map lower_char.
Definition upper : string -> string := map upper_char.

Definition len : string -> nat := String.length.

Fixpoint drop (n : nat) (s : string) : string :=
  match n, s with
  | O, _ => s
  | S n', String _ s' => drop n' s'
  | S _, EmptyString => EmptyString
  end.

Fixpoint take (n : nat) (s : string) : string :=
  match n, s with
  | O, _ => EmptyString
  | S n', String c s' => String c (take n' s')
  | S _, EmptyString => EmptyString
  end.

(** [s.startswith(p)]. *)
Fixpoint startswith (p s : string) : bool :=
  match p, s with
  | EmptyString, _ => true
  | String a p', String b s' => if ascii_dec a b then startswith p' s' else false
  | String _ _, EmptyString => false
  end.

(** [p in s]. *)
Fixpoint contains (p s : string) : bool :=
  startswith p s ||
  match s with
  | EmptyString => false
  | String _ s' => contains p s'
  end.

(** Left-to-right scan shared by [replace]: [skip] counts the characters of
    a match that are still to be passed over. *)
Fixpoint replace_go (old new : string) (skip : nat) (s : string) : string :=
  match s with
  | EmptyString => EmptyString
  | String c s' =>
      match skip with
      | S k => replace_go old new k s'
      | O =>
          if startswith old s
          then new +:+ replace_go old new (len old - 1) s'
          else String c (replace_go old new 0 s')
      end
  end.

Fixpoint intersperse (new : string) (s : string) : string :=
  match s with
  | EmptyString => new
  | String c s' => new +:+ String c (intersperse new s')
  end.

(** [s.replace(old, new)]: every non-overlapping occurrence, leftmost
    first; an empty [old] matches between all characters. *)
Definition replace (old new s : string) : string :=
  match old with
  | EmptyString => intersperse new s
  | _ => replace_go old new 0 s
  end.

Fixpoint lstrip (s : string) : string :=
  match s with
  | EmptyString => EmptyString
  | String c s' => if is_space c then lstrip s' else s
  end.

(** Strip a trailing run of characters satisfying [p]. *)
Fixpoint rstrip_by (p : ascii -> bool) (s : string) : string :=
  match s with
  | EmptyString => EmptyString
  | String c s' =>
      match rstrip_by p s' with
      | EmptyString => if p c then EmptyString else String c EmptyString
      | r => String c r
      end
  end.

(** [s.strip()]. *)
Definition strip (s : string) : string := rstrip_by is_space (lstrip s).

(** [s.rstrip(')')] for a one-character argument. *)
Definition rstrip_char (c : ascii) : string -> string :=
  rstrip_by (fun x => if ascii_dec x c then true else false).

(** [s.split(sep)] for a non-empty separator; the head of the result is
    the piece being read. *)
Fixpoint split_go (sep : string) (skip : nat) (s : string) : list string :=
  match s with
  | EmptyString => [EmptyString]
  | String c s' =>
      match skip with
      | S k => split_go sep k s'
      | O =>
          if startswith sep s
          then EmptyString :: split_go sep (len sep - 1) s'
          else match split_go sep 0 s' with
               | h :: t => String c h :: t
               | [] => [String c EmptyString]
               end
      end
  end.

Definition split (sep s : string) : list string := split_go sep 0 s.

(** [s.partition(c)] for a one-character separator. *)
Fixpoint partition (c : ascii) (s : string) : string * string * string :=
  match s with
  | EmptyString => (EmptyString, EmptyString, EmptyString)
  | String a s' =>
      if ascii_dec a c then (EmptyString, String c EmptyString, s')
      else match partition c s' with
           | (h, EmptyString, _) => (String a h, EmptyString, EmptyString)
           | (h, m, t) => (String a h, m, t)
           end
  end.

(** [sep.join(l)]. *)
Definition join (sep : string) (l : list string) : string := String.concat sep l.

End Str.

(** ** Regular expressions, as far as the patterns of docker.py use them

    A backtracking matcher in continuation-passing style with Python's
    priorities: a greedy repetition tries the longest run first, a lazy one
    the shortest, and the first complete match is returned.  Repetition is
    over character classes only, which is all the source's patterns need. *)

Module Re.

Inductive re : Type :=
| Bol                                     (* ^ *)
| Eol                                     (* $ *)
| Lit (l : string)                        (* literal text *)
| Opt (c : ascii)                         (* c? *)
| Rep (greedy : bool) (least : nat) (p : ascii -> bool)
                                          (* p+, p*, p+? *)
| Grp (r : re)                            (* ( r ) *)
| Seq (r1 r2 : re).

Definition cat (l : list re) : re := foldr Seq (Lit "") l.

(** End position and captured groups of a match. *)
Definition found : Type := nat * list string.
Definition cont : Type := nat -> string -> list string -> option found.

(** [$] without MULTILINE: the end, or just before a final newline. *)
Definition at_end (s : string) : bool :=
  match s with
  | EmptyString => true
  | String c EmptyString => if ascii_dec c "010"%char then true else false
  | _ => false
  end.

Fixpoint rep (greedy : bool) (p : ascii -> bool)
    (k : nat -> string -> option found) (need pos : nat) (s : string)
    {struct s} : option found :=
  match s with
  | String c s' =>
      if p c then
        if greedy then
          match rep greedy p k (pred need) (S pos) s' with
          | Some r => Some r
          | None => match need with O => k pos s | S _ => None end
          end
        else
          match (match need with O => k pos s | S _ => None end) with
          | Some r => Some r
          | None => rep greedy p k (pred need) (S pos) s'
          end
      else match need with O => k pos s | S _ => None end
  | EmptyString => match need with O => k pos s | S _ => None end
  end.

Fixpoint exec (r : re) (k : cont) (pos : nat) (s : string)
    (caps : list string) {struct r} : option found :=
  match r with
  | Bol => match pos with O => k pos s caps | S _ => None end
  | Eol => if at_end s then k pos s caps else None
  | Lit l =>
      if Str.startswith l s
      then k (pos + Str.len l) (Str.drop (Str.len l) s) caps
      else None
  | Opt c =>
      match s with
      | String a s' =>
          if ascii_dec a c then
            match k (S pos) s' caps with
            | Some r => Some r
            | None => k pos s caps
            end
          else k pos s caps
      | EmptyString => k pos s caps
      end
  | Rep g n p => rep g p (fun pos' s' => k pos' s' caps) n pos s
  | Grp r1 =>
      exec r1 (fun pos' s' caps' => k pos' s' (caps' ++ [Str.take (pos' - pos) s]))
           pos s caps
  | Seq r1 r2 => exec r1 (exec r2 k) pos s caps
  end.

Definition accept : cont := fun pos _ caps => Some (pos, caps).

(** A match of [r] that starts exactly at offset [pos] of the subject,
    whose rest from there is [s]. *)
Definition match_at (r : re) (pos : nat) (s : string) : option found :=
  exec r accept pos s [].

Fixpoint search_from (r : re) (pos : nat) (s : string) : option found :=
  match match_at r pos s with
  | Some m => Some m
  | None =>
      match s with
      | EmptyString => None
      | String _ s' => search_from r (S pos) s'
      end
  end.

(** [re.search(r, s)]: the groups of the leftmost match, if any. *)
Definition search (r : re) (s : string) : option (list string) :=
  snd <$> search_from r 0 s.

Fixpoint sub_go (r : re) (repl : string) (skip pos : nat) (s : string) : string :=
  match s with
  | EmptyString =>
      match skip, match_at r pos EmptyString with
      | O, Some _ => repl
      | _, _ => EmptyString
      end
  | String c s' =>
      match skip with
      | S n => sub_go r repl n (S pos) s'
      | O =>
          match match_at r pos s with
          | Some (e, _) =>
              if (e <=? pos)%nat
              then repl +:+ String c (sub_go r repl 0 (S pos) s')
              else repl +:+ sub_go r repl (e - pos - 1) (S pos) s'
          | None => String c (sub_go r repl 0 (S pos) s')
          end
      end
  end.

(** [re.sub(r, repl, s)] for a replacement without group references. *)
Definition sub (r : re) (repl s : string) : string := sub_go r repl 0 0 s.

Definition any (c : ascii) : bool := if ascii_dec c "010"%char then false else true.
Definition isnt (x c : ascii) : bool := if ascii_dec c x then false else true.

Definition plus (p : ascii -> bool) : re := Rep true 1 p.
Definition star (p : ascii -> bool) : re := Rep true 0 p.
Definition plus_lazy (p : ascii -> bool) : re := Rep false 1 p.

End Re.

(** The four patterns of docker.py. *)

(** [-?\d+(?:\.\d+)] *)
Definition float_re : Re.re :=
  Re.cat [Re.Opt "-"; Re.plus Str.is_digit; Re.Lit "."; Re.plus Str.is_digit].

(** [\/\/(\d+\.0)] *)
Definition index_re : Re.re :=
  Re.cat [Re.Lit "//"; Re.Grp (Re.cat [Re.plus Str.is_digit; Re.Lit ".0"])].

(** [^(-?\d+(?:\.\d+))\s+!(\w+)\([^\)]+\)\s+\/\/(\d+\.0)$] *)
Definition prior_re : Re.re :=
  Re.cat [Re.Bol; Re.Grp float_re; Re.plus Str.is_space; Re.Lit "!";
          Re.Grp (Re.plus Str.is_word); Re.Lit "("; Re.plus (Re.isnt ")");
          Re.Lit ")"; Re.plus Str.is_space; index_re; Re.Eol].

(** [^(-?\d+(?:\.\d+))\s+.+?\s+\/\/(\d+\.0)$] *)
Definition soft_re : Re.re :=
  Re.cat [Re.Bol; Re.Grp float_re; Re.plus Str.is_space; Re.plus_lazy Re.any;
          Re.plus Str.is_space; index_re; Re.Eol].

(** [ \. \/\/(\d+\.0)hardfixed$] *)
Definition hard_re : Re.re :=
  Re.cat [Re.Lit " . "; index_re; Re.Lit "hardfixed"; Re.Eol].

(** [,\s*\(\w+\s*!=\s*\w+\)] *)
Definition guard_re : Re.re :=
  Re.cat [Re.Lit ","; Re.star Str.is_space; Re.Lit "("; Re.plus Str.is_word;
          Re.star Str.is_space; Re.Lit "!="; Re.star Str.is_space;
          Re.plus Str.is_word; Re.Lit ")"].

(** ** Exceptions *)

Inductive exn : Type :=
| ValueError (msg : string)
| IndexError
| KeyError
| OverflowError
| TypeError.

Inductive result (A : Type) : Type :=
| Ok (a : A)
| Raise (e : exn).
Arguments Ok {A} a.
Arguments Raise {A} e.

Global Instance result_ret : MRet result := fun A a => Ok a.
Global Instance result_bind : MBind result := fun A B f m =>
  match m with
  | Ok a => f a
  | Raise e => Raise e
  end.

(** ** Floats

    The adapter never computes with a float: it reads one from text
    ([float(s)]), prints one with ["%f"] and uses the constants 0.0 and 1.0.
    That interface is a class, so that every statement below holds for
    binary64 as for any other reading of it. *)

Class PyFloat : Type := {
  float : Type;
  float_of_str : string -> option float;   (* float(s); None: ValueError *)
  fmt_f : float -> string;                 (* "%f" % x *)
  f_zero : float;                          (* 0.0 *)
  f_one : float;                           (* 1.0 *)
}.

(** ** Integers read through a float: [int(float(g))]

    The index of an output line is written [<digits>.0].  [float] rounds the
    integer to 53 significant bits (to nearest, ties to even) and overflows
    to infinity from 2^1024 on, which [int] refuses. *)

Definition digit_value (c : ascii) : N := N.of_nat (Str.code c - 48).

Fixpoint decimal_go (acc : N) (s : string) : option N :=
  match s with
  | EmptyString => Some acc
  | String c s' =>
      if Str.is_digit c then decimal_go (10 * acc + digit_value c) s' else None
  end.

(** The value of a non-empty run of decimal digits. *)
Definition decimal_value (s : string) : option N :=
  match s with
  | EmptyString => None
  | _ => decimal_go 0 s
  end.

Definition round_double (n : N) : option N :=
  if (n <? 2 ^ 53)%N then Some n
  else
    let e := (N.log2 n - 52)%N in
    let q := N.shiftr n e in
    let r := N.land n (N.ones e) in
    let half := N.shiftl 1 (e - 1) in
    let q' := if (half <? r)%N || ((r =? half)%N && N.odd q) then (q + 1)%N else q in
    let v := N.shiftl q' e in
    if (v <? 2 ^ 1024)%N then Some v else None.

(** [int(float(g))] for a group [g] of the shape [\d+\.0]. *)
Definition int_of_float_text (g : string) : result Z :=
  match Str.partition "." g with
  | (digits, _, _) =>
      match decimal_value digits with
      | None => Raise (ValueError ("could not convert string to float: '" +:+ g +:+ "'"))
      | Some n =>
          match round_double n with
          | Some v => Ok (Z.of_N v)
          | None => Raise OverflowError
          end
      end
  end.

(** [l[i] = x] with Python's indexing: a negative [i] counts from the end,
    and an index outside [-len(l), len(l)) raises IndexError. *)
Definition setitem {A : Type} (l : list A) (i : Z) (x : A) : result (list A) :=
  let n := Z.of_nat (length l) in
  if (0 <=? i)%Z && (i <? n)%Z then Ok (<[Z.to_nat i := x]> l)
  else if (- n <=? i)%Z && (i <? 0)%Z then Ok (<[Z.to_nat (n + i) := x]> l)
  else Raise IndexError.

(** ** Data model

    The Relation and Rule classes are collaborators of the adapter and are
    not part of docker.py; the records below carry what the adapter reads
    and writes through their methods. *)

(** A slot of the learned-weight list: [False] (never assigned), [None]
    (hard rule) or a float. *)
Inductive slot `{PyFloat} : Type :=
| SFalse
| SNone
| SWeight (w : float).

Module Relation.
(** Modelled from the spec: the Relation class.  "name, arity (column
    count), ordered list of variable type tags, collection of observed
    rows (tuple of argument strings, optional trailing numeric weight),
    collection of unobserved rows, boolean is-observed, optional scalar
    negative-prior-weight".  The type tags are kept as their [str()]. *)
Record t `{PyFloat} : Type := mk {
  name : string;
  arity : nat;
  variable_types : list string;
  is_observed : bool;
  get_observed_data : list (list string);
  get_unobserved_data : list (list string);
  get_negative_prior_weight : option float;
}.

Section methods.
Context `{PyFloat}.

Definition has_observed_data (r : t) : bool :=
  negb (bool_decide (get_observed_data r = [])).
Definition has_unobserved_data (r : t) : bool :=
  negb (bool_decide (get_unobserved_data r = [])).
Definition has_negative_prior_weight (r : t) : bool :=
  match get_negative_prior_weight r with Some _ => true | None => false end.
Definition set_negative_prior_weight (w : float) (r : t) : t :=
  mk _ (name r) (arity r) (variable_types r) (is_observed r)
     (get_observed_data r) (get_unobserved_data r) (Some w).
End methods.
End Relation.

Module Rule.
(** Modelled from the spec: the Rule class.  "free-text logical
    expression, a weight (float) or fixed/hard marker, is-weighted flag";
    a rule is weighted unless its weight is [None]. *)
Record t `{PyFloat} : Type := mk {
  text : string;
  weight : slot;
}.

Section methods.
Context `{PyFloat}.

Definition is_weighted (r : t) : bool :=
  match weight r with SNone => false | _ => true end.
Definition set_weight (w : slot) (r : t) : t := mk _ (text r) w.
End methods.
End Rule.

(** The engine object: [self._relations] and [self._rules].  A relation
    object is identified with its position in [_relations]; that position
    stands for the object wherever the source uses a relation as a dict key
    or keeps a reference to it. *)
Record Tuffy `{PyFloat} : Type := mkTuffy {
  _relations : list Relation.t;
  _rules : list Rule.t;
}.

Definition TAB : string := String "009" EmptyString.
Definition NL : string := String "010" EmptyString.
Definition QUOTE : string := String "034" EmptyString.
Definition MARKER : string := "WEIGHT OF LAST ITERATION".

(** [match.group(k)], k >= 1. *)
Definition group (m : list string) (k : nat) : string := nth (k - 1) m EmptyString.

Section engine.
Context `{PyFloat}.

(** [float(s)]. *)
Definition to_float (s : string) : result float :=
  match float_of_str s with
  | Some x => Ok x
  | None => Raise (ValueError ("could not convert string to float: '" +:+ s +:+ "'"))
  end.

(** ["%f" % x] for the values a weight slot can hold. *)
Definition pct_f (x : slot) : result string :=
  match x with
  | SWeight w => Ok (fmt_f w)
  | SFalse => Ok (fmt_f f_zero)
  | SNone => Raise TypeError
  end.

(** *** _find_relation *)
Fixpoint find_relation_from (i : nat) (rels : list Relation.t) (name : string)
    : option nat :=
  match rels with
  | [] => None
  | r :: rs =>
      if bool_decide (Str.lower (Relation.name r) = Str.lower name)
      then Some i
      else find_relation_from (S i) rs name
  end.

Definition _find_relation (self : Tuffy) (name : string) : option nat :=
  find_relation_from 0 (_relations self) name.

(** *** _parse_weights *)

(** [{relation.name().upper() : relation for relation in self._relations}] *)
Fixpoint relation_map_from (i : nat) (rels : list Relation.t)
    (m : gmap string nat) : gmap string nat :=
  match rels with
  | [] => m
  | r :: rs => relation_map_from (S i) rs (<[Str.upper (Relation.name r) := i]> m)
  end.

Definition relation_map (self : Tuffy) : gmap string nat :=
  relation_map_from 0 (_relations self) ∅.

(** The variables of the loop over the output lines; the relations are
    part of it because the loop mutates them. *)
Record weights_state : Type := mkWS {
  ws_skip : bool;
  ws_new_weights : list slot;
  ws_relations : list Relation.t;
}.

Definition prior_error (relation_name line : string) : exn :=
  ValueError ("Could not find relation (" +:+ relation_name +:+
              ") found in prior: '" +:+ line +:+ "'.").

Definition parse_error (line : string) : exn :=
  ValueError ("Could not parse learned Tuffy weight from output rule: '" +:+
              line +:+ "'.").

(** One iteration of [for line in file]. *)
Definition parse_weights_line (rmap : gmap string nat) (st : weights_state)
    (line : string) : result weights_state :=
  if Str.contains MARKER line then
    Ok (mkWS false (ws_new_weights st) (ws_relations st))
  else if ws_skip st then Ok st
  else
    let line := Str.strip line in
    if bool_decide (line = EmptyString) then Ok st
    else
      match Re.search prior_re line with
      | Some m =>
          weight ← to_float (group m 1);
          let relation_name := Str.upper (group m 2) in
          match rmap !! relation_name with
          | None => Raise (prior_error relation_name line)
          | Some i =>
              Ok (mkWS (ws_skip st) (ws_new_weights st)
                    (alter (Relation.set_negative_prior_weight weight) i
                           (ws_relations st)))
          end
      | None =>
          match Re.search soft_re line with
          | Some m =>
              weight ← to_float (group m 1);
              k ← int_of_float_text (group m 2);
              ws ← setitem (ws_new_weights st) (k - 1) (SWeight weight);
              Ok (mkWS (ws_skip st) ws (ws_relations st))
          | None =>
              match Re.search hard_re line with
              | Some m =>
                  k ← int_of_float_text (group m 1);
                  ws ← setitem (ws_new_weights st) (k - 1) SNone;
                  Ok (mkWS (ws_skip st) ws (ws_relations st))
              | None => Raise (parse_error line)
              end
          end
      end.

Fixpoint parse_weights_lines (rmap : gmap string nat) (st : weights_state)
    (lines : list string) : result weights_state :=
  match lines with
  | [] => Ok st
  | line :: rest =>
      st' ← parse_weights_line rmap st line;
      parse_weights_lines rmap st' rest
  end.

Definition weights_init (self : Tuffy) : weights_state :=
  mkWS true (replicate (length (_rules self)) SFalse) (_relations self).

(** [_parse_weights(path)], on the lines of the file at [path]: the new
    weights, and the relations as the loop leaves them. *)
Definition _parse_weights (self : Tuffy) (lines : list string)
    : result (list slot * list Relation.t) :=
  st ← parse_weights_lines (relation_map self) (weights_init self) lines;
  Ok (ws_new_weights st, ws_relations st).

(** *** learn: [for i in range(len(self._rules)):
                   self._rules[i].set_weight(weights[i])] *)
Fixpoint apply_weights (i : nat) (weights : list slot) (rules : list Rule.t)
    : result (list Rule.t) :=
  match rules with
  | [] => Ok []
  | r :: rs =>
      match weights !! i with
      | None => Raise IndexError
      | Some w =>
          rs' ← apply_weights (S i) weights rs;
          Ok (Rule.set_weight w r :: rs')
      end
  end.

(** [learn()], given the lines the engine wrote to the output file. *)
Definition learn (self : Tuffy) (output : list string) : result Tuffy :=
  '(weights, rels) ← _parse_weights self output;
  rules ← apply_weights 0 weights (_rules self);
  Ok (mkTuffy _ rels rules).

End engine.

Section results.
Context `{PyFloat}.

(** *** _read_results

    [results] maps a relation (or [None], what [_find_relation] returns
    for an unknown predicate) to a dict from argument tuples to values. *)

Definition read_results_line (self : Tuffy) (has_value : bool)
    (results : gmap (option nat) (gmap (list string) float)) (line : string)
    : result (gmap (option nat) (gmap (list string) float)) :=
  let line := Str.strip line in
  if bool_decide (line = EmptyString) then Ok results
  else
    let parts := Str.split TAB line in
    let atom := nth 0 parts EmptyString in
    value ← (if has_value
             then match parts !! 1%nat with
                  | Some p => to_float p
                  | None => Raise IndexError
                  end
             else Ok f_one);
    match Str.partition "(" atom with
    | (predicate, _, arguments) =>
        let relation := _find_relation self predicate in
        let arguments :=
          Str.split ", " (Str.replace QUOTE "" (Str.rstrip_char ")" arguments)) in
        let results :=
          match results !! relation with
          | None => <[relation := ∅]> results
          | Some _ => results
          end in
        Ok (<[relation := <[arguments := value]> (default ∅ (results !! relation))]>
              results)
    end.

Fixpoint read_results_lines (self : Tuffy) (has_value : bool)
    (results : gmap (option nat) (gmap (list string) float))
    (lines : list string)
    : result (gmap (option nat) (gmap (list string) float)) :=
  match lines with
  | [] => Ok results
  | line :: rest =>
      results' ← read_results_line self has_value results line;
      read_results_lines self has_value results' rest
  end.

Definition _read_results (self : Tuffy) (lines : list string) (has_value : bool)
    : result (gmap (option nat) (gmap (list string) float)) :=
  read_results_lines self has_value ∅ lines.

(** *** solve *)

(** A result row [list(key) + [value]]. *)
Definition row : Type := list string * float.

(** The body of [for row in relation.get_unobserved_data()];
    [raw_results[relation]] is evaluated for every row. *)
Fixpoint solve_rows (raw_results : gmap (option nat) (gmap (list string) float))
    (i : nat) (arity : nat) (rows : list (list string)) : result (list row) :=
  match rows with
  | [] => Ok []
  | r :: rest =>
      let key := take arity r in
      match raw_results !! Some i with
      | None => Raise KeyError
      | Some d =>
          let out := match d !! key with
                     | Some v => (key, v)
                     | None => (key, f_zero)
                     end in
          rest' ← solve_rows raw_results i arity rest;
          Ok (out :: rest')
      end
  end.

Fixpoint solve_relations (raw_results : gmap (option nat) (gmap (list string) float))
    (i : nat) (rels : list Relation.t) (results : gmap nat (list row))
    : result (gmap nat (list row)) :=
  match rels with
  | [] => Ok results
  | relation :: rest =>
      if negb (Relation.has_unobserved_data relation)
      then solve_relations raw_results (S i) rest results
      else
        rows ← solve_rows raw_results i (Relation.arity relation)
                 (Relation.get_unobserved_data relation);
        solve_relations raw_results (S i) rest (<[i := rows]> results)
  end.

(** [solve()], given the lines the engine wrote to the output file. *)
Definition solve (self : Tuffy) (output : list string)
    : result (gmap nat (list row)) :=
  raw_results ← _read_results self output false;
  solve_relations raw_results 0 (_relations self) ∅.

End results.

Section writers.
Context `{PyFloat}.

(** *** _write_file: [str(line) + "\n"] for every line. *)
Definition _write_file (lines : list string) : string :=
  String.concat EmptyString ((fun line => line +:+ NL) <$> lines).

(** *** _write_program *)

(** ["%s(%s)" % (name, ', '.join(...))], with ['*'] in front of an
    observed relation. *)
Definition declaration (relation : Relation.t) : string :=
  let predicate :=
    Relation.name relation +:+ "(" +:+
    Str.join ", " (Relation.variable_types relation) +:+ ")" in
  if Relation.is_observed relation then "*" +:+ predicate else predicate.

(** [for relation in self._relations:
       rule = rule.replace(relation.name().lower(), relation.name())] *)
Definition recase (rels : list Relation.t) (rule : string) : string :=
  foldl (fun rule relation =>
           Str.replace (Str.lower (Relation.name relation))
                       (Relation.name relation) rule)
        rule rels.

(** The text of a rule as the loop body rewrites it. *)
Definition rule_text (rels : list Relation.t) (text : string) : string :=
  let rule := text in
  let rule := Str.replace "&" "," rule in
  let rule := Str.replace "->" "=>" rule in
  let rule := Str.replace " = " " => " rule in
  let rule := Re.sub guard_re "" rule in
  let rule := Str.lower rule in
  recase rels rule.

Definition rule_line (rels : list Relation.t) (r : Rule.t) : result string :=
  let rule := rule_text rels (Rule.text r) in
  if Rule.is_weighted r then
    w ← pct_f (Rule.weight r);
    Ok (w +:+ " " +:+ rule)
  else Ok (rule +:+ " .").

Fixpoint rule_lines (rels : list Relation.t) (rules : list Rule.t)
    : result (list string) :=
  match rules with
  | [] => Ok []
  | r :: rest =>
      line ← rule_line rels r;
      rest' ← rule_lines rels rest;
      Ok (line :: rest')
  end.

(** [string.ascii_lowercase] *)
Definition ascii_lowercase : list string :=
  ["a"; "b"; "c"; "d"; "e"; "f"; "g"; "h"; "i"; "j"; "k"; "l"; "m";
   "n"; "o"; "p"; "q"; "r"; "s"; "t"; "u"; "v"; "w"; "x"; "y"; "z"].

Definition prior_line (relation : Relation.t) (w : float) : string :=
  let arguments := Str.join ", " (take (Relation.arity relation) ascii_lowercase) in
  fmt_f w +:+ " !" +:+ Relation.name relation +:+ "(" +:+ arguments +:+ ")".

(** The second loop over the relations: one line for every relation that
    has a negative prior weight. *)
Definition prior_lines (rels : list Relation.t) : list string :=
  omap (fun relation =>
          prior_line relation <$> Relation.get_negative_prior_weight relation)
       rels.

(** [has_prior |= relation.has_negative_prior_weight()] over all relations. *)
Definition has_prior (rels : list Relation.t) : bool :=
  foldl (fun acc relation => acc || Relation.has_negative_prior_weight relation)
        false rels.

(** The lines handed to [_write_file]. *)
Definition _write_program (self : Tuffy) : result (list string) :=
  let rels := _relations self in
  let program := (declaration <$> rels) ++ [EmptyString] in
  rules ← rule_lines rels (_rules self);
  let program := program ++ rules in
  Ok (if has_prior rels
      then program ++ [EmptyString] ++ prior_lines rels
      else program).

(** *** _write_evidence and _write_query *)

(** [list(map(lambda argument: argument.replace(' ', '_'), row))] *)
Definition underscore_row (row : list string) : list string :=
  Str.replace " " "_" <$> row.

(** ["%s(%s)" % (relation.name(), ', '.join(map(str, row[0:relation.arity()])))] *)
Definition fact (relation : Relation.t) (row : list string) : string :=
  Relation.name relation +:+ "(" +:+
  Str.join ", " (take (Relation.arity relation) row) +:+ ")".

Definition evidence_line (relation : Relation.t) (row : list string)
    : result string :=
  let row := underscore_row row in
  let line := fact relation row in
  if (Relation.arity relation <? length row)%nat then
    match last row with
    | Some x =>
        w ← to_float x;
        Ok (fmt_f w +:+ " " +:+ line)
    | None => Raise IndexError
    end
  else Ok line.

Fixpoint evidence_rows (relation : Relation.t) (rows : list (list string))
    : result (list string) :=
  match rows with
  | [] => Ok []
  | row :: rest =>
      line ← evidence_line relation row;
      rest' ← evidence_rows relation rest;
      Ok (line :: rest')
  end.

Fixpoint evidence_relations (rels : list Relation.t) : result (list string) :=
  match rels with
  | [] => Ok []
  | relation :: rest =>
      if negb (Relation.has_observed_data relation)
      then evidence_relations rest
      else
        lines ← evidence_rows relation (Relation.get_observed_data relation);
        rest' ← evidence_relations rest;
        Ok (lines ++ rest')
  end.

(** The lines handed to [_write_file]. *)
Definition _write_evidence (self : Tuffy) : result (list string) :=
  evidence_relations (_relations self).

Definition query_line (relation : Relation.t) (row : list string) : string :=
  fact relation (underscore_row row).

Fixpoint query_relations (rels : list Relation.t) : list string :=
  match rels with
  | [] => []
  | relation :: rest =>
      if negb (Relation.has_unobserved_data relation)
      then query_relations rest
      else (query_line relation <$> Relation.get_unobserved_data relation)
             ++ query_relations rest
  end.

(** The lines handed to [_write_file]. *)
Definition _write_query (self : Tuffy) : list string :=
  query_relations (_relations self).

End writers.

(** ** A float instance to run the model on

    Decimal fixed point with six fractional digits: exact on the literals
    with at most six of them, which ["%f"] prints back in full. *)

Module Micro.

Definition parse_unsigned (s : string) : option N :=
  match Str.partition "." s with
  | (ip, dot, fp) =>
      i ← decimal_value ip;
      f ← (if bool_decide (dot = EmptyString) then Some 0%N
           else if bool_decide (fp = EmptyString) then None
           else decimal_go 0 (Str.take 6 (fp +:+ "000000")));
      Some (i * 1000000 + f)%N
  end.

Definition parse (s : string) : option Z :=
  match s with
  | String "-" s' => (fun n => (- Z.of_N n)%Z) <$> parse_unsigned s'
  | _ => Z.of_N <$> parse_unsigned s
  end.

Definition digit_char (n : N) : ascii := ascii_of_N (48 + n mod 10).

(** The last [k] decimal digits of [n], most significant first. *)
Fixpoint last_digits (k : nat) (n : N) (acc : string) : string :=
  match k with
  | O => acc
  | S k' => last_digits k' (n / 10) (String (digit_char n) acc)
  end.

Definition print_N (n : N) : string :=
  last_digits (S (N.to_nat (N.log2 n) / 3)) n EmptyString.

Fixpoint strip_zeros (s : string) : string :=
  match s with
  | String c s' =>
      if bool_decide (c = "0"%char) && negb (bool_decide (s' = EmptyString))
      then strip_zeros s'
      else s
  | EmptyString => EmptyString
  end.

Definition print (z : Z) : string :=
  let n := Z.abs_N z in
  (if (z <? 0)%Z then "-" else "") +:+
  strip_zeros (print_N (n / 1000000)) +:+ "." +:+
  last_digits 6 (n mod 1000000) EmptyString.

Global Instance micro : PyFloat := {|
  float := Z;
  float_of_str := parse;
  fmt_f := print;
  f_zero := 0%Z;
  f_one := 1000000%Z;
|}.

End Micro.

(** ** Vocabulary of the statements *)

Fixpoint all_chars (p : ascii -> bool) (s : string) : bool :=
  match s with
  | EmptyString => true
  | String c s' => p c && all_chars p s'
  end.

(** What it means for a pattern to match the text [c] at offset [pos], with
    [rest] following it, and which groups it captures. *)
Fixpoint matches (r : Re.re) (pos : nat) (c rest : string) (caps : list string) : Prop :=
  match r with
  | Re.Bol => pos = 0%nat ∧ c = EmptyString ∧ caps = []
  | Re.Eol => Re.at_end rest = true ∧ c = EmptyString ∧ caps = []
  | Re.Lit l => c = l ∧ caps = []
  | Re.Opt x => (c = EmptyString ∨ c = String x EmptyString) ∧ caps = []
  | Re.Rep _ n p => all_chars p c = true ∧ (n ≤ Str.len c)%nat ∧ caps = []
  | Re.Grp r1 => ∃ caps1, matches r1 pos c rest caps1 ∧ caps = caps1 ++ [c]
  | Re.Seq r1 r2 =>
      ∃ c1 c2 caps1 caps2,
        c = c1 +:+ c2 ∧ matches r1 pos c1 (c2 +:+ rest) caps1 ∧
        matches r2 (pos + Str.len c1) c2 rest caps2 ∧ caps = caps1 ++ caps2
  end.

(** A non-empty run of characters of one class. *)
Definition run_of (p : ascii -> bool) (s : string) : Prop :=
  all_chars p s = true ∧ s ≠ EmptyString.

(** The shape [-?\d+\.\d+] of a float in the engine's output. *)
Definition float_literal (w : string) : Prop :=
  ∃ sign d1 d2, w = sign +:+ d1 +:+ "." +:+ d2 ∧
    (sign = EmptyString ∨ sign = "-") ∧
    run_of Str.is_digit d1 ∧ run_of Str.is_digit d2.

(** The end of the subject as [$] sees it: nothing, or one newline. *)
Definition line_end (nl : string) : Prop := nl = EmptyString ∨ nl = NL.

Section vocabulary.
Context `{PyFloat}.

(** The fact [name(arg0, ..., argN-1)] of a row, spaces replaced. *)
Definition fact_of (rel : Relation.t) (row : list string) : string :=
  Relation.name rel +:+ "(" +:+
  Str.join ", " (Str.replace " " "_" <$> take (Relation.arity rel) row) +:+ ")".

(** What the evidence writer makes of one observed row. *)
Definition evidence_of (rel : Relation.t) (row : list string) (line : string) : Prop :=
  if (Relation.arity rel <? length row)%nat
  then ∃ x w, last row = Some x ∧
              float_of_str (Str.replace " " "_" x) = Some w ∧
              line = fmt_f w +:+ " " +:+ fact_of rel row
  else line = fact_of rel row.

(** What one line of the inference output holds: the relation its predicate
    resolves to, its argument tuple and its value. *)
Definition result_parts (line : string) : list string :=
  Str.split TAB (Str.strip line).

Definition result_key (self : Tuffy) (line : string) : option nat :=
  _find_relation self (Str.partition "(" (nth 0 (result_parts line) EmptyString)).1.1.

Definition result_args (line : string) : list string :=
  Str.split ", "
    (Str.replace QUOTE ""
       (Str.rstrip_char ")"
          (Str.partition "(" (nth 0 (result_parts line) EmptyString)).2)).

Definition result_value (has_value : bool) (line : string) : result float :=
  if has_value
  then match result_parts line !! 1%nat with
       | Some p => to_float p
       | None => Raise IndexError
       end
  else Ok f_one.

(** The entries that the lines of the output give to one key, in order. *)
Definition entries_for (self : Tuffy) (has_value : bool) (key : option nat)
    (lines : list string) : list (list string * float) :=
  omap (fun line =>
          if bool_decide (Str.strip line = EmptyString) then None
          else if bool_decide (result_key self line = key)
               then match result_value has_value line with
                    | Ok v => Some (result_args line, v)
                    | Raise _ => None
                    end
               else None)
       lines.

(** Storing entries one after the other in the dict found under a key. *)
Definition store_entries (d : option (gmap (list string) float))
    (es : list (list string * float)) : option (gmap (list string) float) :=
  foldl (fun d e => Some (<[e.1 := e.2]> (default ∅ d))) d es.

(** The row [solve] builds for a query row, given the relation's dict. *)
Definition solved_row (d : gmap (list string) float) (arity : nat)
    (r : list string) : row :=
  (take arity r, default f_zero (d !! take arity r)).





(** *** A small engine to run the statements on *)

Definition friends : Relation.t :=
  Relation.mk _ "Friends" 2 ["person"; "person"] false
    [] [["a"; "b"]; ["b"; "c"]] None.

Definition smokes : Relation.t :=
  Relation.mk _ "Smokes" 1 ["person"] true
    [["New York"; "0.5"]; ["x"]] [] None.

Definition three_rules : list Rule.t :=
  [Rule.mk _ "Smokes(A) -> Smokes(A)" SNone;
   Rule.mk _ "Friends(A, B) -> Friends(B, A)" SNone;
   Rule.mk _ "Friends(A, B) & Smokes(A) -> Smokes(B)" SNone].

Definition engine : Tuffy := mkTuffy _ [friends; smokes] three_rules.


(** A relation of arity 27 with a prior weight. *)
Definition wide : Relation.t :=
  Relation.mk _ "Wide" 27 (replicate 27 "t") false [] [] (Some f_one).

(** A relation with a query row whose argument holds a space. *)
Definition city : Relation.t :=
  Relation.mk _ "City" 1 ["place"] false [] [["New York"]] None.



End vocabulary.

(** Opens the existentials and conjunctions among the hypotheses. *)
Ltac break_match_hyps :=
  repeat match goal with
         | H : ∃ _, _ |- _ => destruct H as [? H]
         | H : _ ∧ _ |- _ => destruct H as [? ?]
         end.

(** *** The three line shapes of the learned program *)

(** [<float> <text> //<digits>.0], with the groups the soft pattern
    captures. *)
Definition soft_shape (l : string) (m : list string) : Prop :=
  ∃ w sp1 body sp2 ds nl,
    l = w +:+ sp1 +:+ body +:+ sp2 +:+ "//" +:+ ds +:+ ".0" +:+ nl
    ∧ m = [w; ds +:+ ".0"]
    ∧ float_literal w ∧ run_of Str.is_space sp1 ∧ run_of Re.any body
    ∧ run_of Str.is_space sp2 ∧ run_of Str.is_digit ds ∧ line_end nl.

(** [<float> !<NAME>(<args>) //<digits>.0], with the groups the prior
    pattern captures. *)
Definition prior_shape (l : string) (m : list string) : Prop :=
  ∃ w sp1 name args sp2 ds nl,
    l = w +:+ sp1 +:+ "!" +:+ name +:+ "(" +:+ args +:+ ")" +:+ sp2 +:+
        "//" +:+ ds +:+ ".0" +:+ nl
    ∧ m = [w; name; ds +:+ ".0"]
    ∧ float_literal w ∧ run_of Str.is_space sp1 ∧ run_of Str.is_word name
    ∧ run_of (Re.isnt ")") args ∧ run_of Str.is_space sp2
    ∧ run_of Str.is_digit ds ∧ line_end nl.

(** [<text> . //<digits>.0hardfixed], with the group the hard pattern
    captures. *)
Definition hard_shape (l : string) (m : list string) : Prop :=
  ∃ pre ds nl,
    l = pre +:+ " . //" +:+ ds +:+ ".0hardfixed" +:+ nl
    ∧ m = [ds +:+ ".0"] ∧ run_of Str.is_digit ds ∧ line_end nl.


(** *** The query file read back *)



Section echo.
Context `{PyFloat}.


End echo.

(** *** What the weight parser may change in a relation *)

Section frame.
Context `{PyFloat}.

(** The relation is the one given, or the one given with a prior weight set. *)
Definition prior_set (r r' : Relation.t) : Prop :=
  r' = r ∨ ∃ w, r' = Relation.set_negative_prior_weight w r.

End frame.

(** ** The adapter and its host

    What docker.py and base.py do to the outside world, the library calls
    [random], [print], [tempfile], [open], [shutil] and [docker], is kept
    as a program of operations; a host answers each operation with a value
    or with the exception the call raises.  The file paths, the order of
    the calls and the handling of their exceptions are the source's; what a
    call does to the world is the host's. *)

(** The exceptions of the library calls: docker.errors.NotFound, which
    [_run_tuffy] catches, and any other. *)
Inductive host_error : Type :=
| NotFound
| OtherError (name : string).

Inductive op : Type :=
| Randint (lo hi : Z)                  (* random.randint(lo, hi) *)
| Stdout (text : string)                (* the text print writes *)
| Mkdtemp (prefix : string)            (* tempfile.mkdtemp(prefix = ..) *)
| WriteText (path content : string)    (* open(path, 'w') and its writes *)
| ReadLines (path : string)            (* open(path, 'r'), [for line in file] *)
| Rmtree (path : string)               (* shutil.rmtree(path) *)
| DockerFromEnv                        (* docker.from_env() *)
| DockerBuild (path tag : string)      (* client.images.build(path = .., tag = ..,
                                          rm = True, quiet = False) *)
| DockerGet (name : string)            (* client.containers.get(name) *)
| DockerRemove (name : string)         (* container.remove() *)
| DockerRun (image : string) (command : list string)
            (volume bind mode name : string)
                                       (* client.containers.run(image, command = ..,
                                          volumes = {volume: {'bind': .., 'mode': ..}},
                                          name = .., remove = True,
                                          network_disabled = False, detach = True) *)
| DockerLogs (name : string)           (* container.logs(stream = True), all its lines *)
| DockerWait (name : string).          (* container.wait() *)

Definition reply (o : op) : Type :=
  match o with
  | Randint _ _ => Z
  | Mkdtemp _ => string
  | ReadLines _ => list string
  | DockerLogs _ => list string
  | _ => unit
  end.

(** A program of operations that ends in a value. *)
Inductive prog (R : Type) : Type :=
| Ret (r : R)
| Do (o : op) (k : reply o + host_error -> prog R).
Arguments Ret {R} r.
Arguments Do {R} o k.

Fixpoint prog_bind {R S : Type} (p : prog R) (f : R -> prog S) : prog S :=
  match p with
  | Ret r => f r
  | Do o k => Do o (fun x => prog_bind (k x) f)
  end.

(** What is raised: an exception of the marshalling code, the error of a
    missing attribute, the error of an abstract method, or the exception of
    a library call. *)
Inductive failure : Type :=
| Raised (e : exn)
| AttributeError (attr : string)
| NotImplementedError (what : string)
| HostError (e : host_error).

Inductive outcome (A : Type) : Type :=
| Done (a : A)
| Threw (e : failure).
Arguments Done {A} a.
Arguments Threw {A} e.

(** One call and its answer. *)
Record event : Type := Event {
  ev_op : op;
  ev_reply : reply ev_op + host_error;
}.

Section run.
Variable host : Type.
Variable respond : host -> forall o : op, (reply o + host_error) * host.

(** The calls a program makes to a host, the state the host is left in and
    the value of the program. *)
Fixpoint run {R : Type} (p : prog R) (h : host) : list event * host * R :=
  match p with
  | Ret r => ([], h, r)
  | Do o k =>
      let '(x, h1) := respond h o in
      let '(t, h2, r) := run (k x) h1 in
      (Event o x :: t, h2, r)
  end.

End run.

(** *** What a trace shows *)

(** Whether the call was answered with a value. *)
Definition answered (e : event) : bool :=
  match ev_reply e with
  | inl _ => true
  | inr _ => false
  end.

(** The directories that [mkdtemp] returned. *)
Definition made (t : list event) : list string :=
  flat_map (fun e =>
    match ev_op e as o return reply o + host_error -> list string with
    | Mkdtemp _ => fun x => match x with inl d => [d] | inr _ => [] end
    | _ => fun _ => []
    end (ev_reply e)) t.

(** The files read, with their lines. *)
Definition read (t : list event) : list (string * list string) :=
  flat_map (fun e =>
    match ev_op e as o return reply o + host_error -> list (string * list string) with
    | ReadLines path => fun x => match x with inl lines => [(path, lines)] | inr _ => [] end
    | _ => fun _ => []
    end (ev_reply e)) t.

(** The files written, with their content. *)
Definition written (t : list event) : list (string * string) :=
  flat_map (fun e =>
    match ev_op e with
    | WriteText path content => if answered e then [(path, content)] else []
    | _ => []
    end) t.

(** The directory trees that were removed. *)
Definition removed (t : list event) : list string :=
  flat_map (fun e =>
    match ev_op e with
    | Rmtree path => if answered e then [path] else []
    | _ => []
    end) t.

(** The containers that were started: the directory mounted and the
    command. *)
Definition ran (t : list event) : list (string * list string) :=
  flat_map (fun e =>
    match ev_op e with
    | DockerRun _ command volume _ _ _ => if answered e then [(volume, command)] else []
    | _ => []
    end) t.

(** The paths that a call names, answered or not. *)
Definition touched (t : list event) : list string :=
  flat_map (fun e =>
    match ev_op e with
    | WriteText path _ => [path]
    | ReadLines path => [path]
    | Rmtree path => [path]
    | _ => []
    end) t.

(** The calls to docker, answered or not. *)
Definition docker_calls (t : list event) : list op :=
  flat_map (fun e =>
    match ev_op e with
    | DockerFromEnv | DockerBuild _ _ | DockerGet _ | DockerRemove _
    | DockerRun _ _ _ _ _ _ | DockerLogs _ | DockerWait _ => [ev_op e]
    | _ => []
    end) t.

(** The last call. *)
Definition last_op (t : list event) : option op := ev_op <$> last t.

(** The answer of the last call, when it is an exception. *)
Definition last_error (t : list event) : option host_error :=
  match last t with
  | Some e => match ev_reply e with inr err => Some err | inl _ => None end
  | None => None
  end.

(** [os.path.join(a, b)] of posixpath. *)
Definition path_join (a b : string) : string :=
  if Str.startswith "/" b then b
  else if bool_decide (a = EmptyString) || bool_decide (Str.rstrip_char "/" a ≠ a)
       then a +:+ b
       else a +:+ "/" +:+ b.

Definition EVIDENCE_FILENAME : string := "evidence.db".
Definition PROGRAM_FILENAME : string := "prog.mln".
Definition QUERY_FILENAME : string := "query.db".
Definition OUTPUT_FILENAME : string := "out.txt".
Definition TEMP_DIR_PREFIX : string := "srli.tuffy.".
Definition DOCKER_TAG : string := "srli.tuffy".
Definition DOCKER_TUFFY_IO_DIR : string := "/tuffy/io".

Section adapter.
Context `{PyFloat}.

(** [os.path.dirname(os.path.realpath(__file__))] *)
Variable THIS_DIR : string.

Definition LIB_DIR : string := path_join THIS_DIR "lib".

(** The engine object: the attributes of BaseEngine and of Tuffy. *)
Record instance : Type := mkInstance {
  state : Tuffy;                (* self._relations, self._rules *)
  _rng : Z;                     (* the seed of self._rng *)
  _cleanup_files : bool;
}.

(** A method: it runs on the object, calls the host, may change the object
    and returns or raises; the object as it is then is kept either way. *)
Definition action (A : Type) : Type := instance -> prog (instance * outcome A).

Definition action_ret {A : Type} (a : A) : action A := fun self => Ret (self, Done a).

Definition action_bind {A B : Type} (m : action A) (f : A -> action B) : action B :=
  fun self =>
    prog_bind (m self) (fun '(self1, r) =>
      match r with
      | Done a => f a self1
      | Threw e => Ret (self1, Threw e)
      end).

Definition get : action instance := fun self => Ret (self, Done self).
Definition put (new : instance) : action unit := fun _ => Ret (new, Done tt).
Definition throw {A : Type} (e : failure) : action A := fun self => Ret (self, Threw e).

(** A library call; its exception is raised. *)
Definition call (o : op) : action (reply o) :=
  fun self =>
    Do o (fun x =>
      match x with
      | inl v => Ret (self, Done v)
      | inr e => Ret (self, Threw (HostError e))
      end).

(** The value or exception of the marshalling code. *)
Definition lift {A : Type} (r : result A) : action A :=
  match r with
  | Ok a => action_ret a
  | Raise e => throw (Raised e)
  end.

(** [try: m  except docker.errors.NotFound: pass] *)
Definition except_not_found (m : action unit) : action unit :=
  fun self =>
    prog_bind (m self) (fun '(self1, r) =>
      match r with
      | Threw (HostError NotFound) => Ret (self1, Done tt)
      | _ => Ret (self1, r)
      end).

End adapter.

Global Instance action_mret `{PyFloat} : MRet action := @action_ret _.
Global Instance action_mbind `{PyFloat} : MBind action :=
  fun A B f m => action_bind m f.

(** A relation as the constructor is given it: its [variable_types()] may
    be [None], and then the list of [variable_types] is not looked at. *)
Record argument `{PyFloat} : Type := mkArgument {
  relation : Relation.t;
  has_types : bool;
}.

Module BaseEngine.
Section base.
Context `{PyFloat}.

(** [BaseEngine.__init__(relations, rules, seed)]: the attributes it sets. *)
Definition __init__ (relations : list Relation.t) (rules : list Rule.t)
    (seed : option Z) : prog (outcome (Tuffy * Z)) :=
  match seed with
  | None =>
      Do (Randint 0 (2 ^ 31)) (fun x =>
        match x with
        | inl seed => Ret (Done (mkTuffy _ relations rules, seed))
        | inr e => Ret (Threw (HostError e))
        end)
  | Some seed => Ret (Done (mkTuffy _ relations rules, seed))
  end.

Definition solve : action unit := throw (NotImplementedError "Engine.solve").
Definition learn : action unit := throw (NotImplementedError "Engine.learn").
Definition ground : action unit := throw (NotImplementedError "Engine.ground").

End base.
End BaseEngine.

Module Run.
Section methods.
Context `{PyFloat}.
Variable THIS_DIR : string.

(** [Tuffy.__init__(relations, rules, cleanup_files, seed = ..)].  Neither
    Tuffy nor BaseEngine defines [_infer_variable_types]: the call raises
    AttributeError. *)
Definition __init__ (relations : list argument) (rules : list Rule.t)
    (cleanup_files : bool) (seed : option Z) : prog (outcome instance) :=
  prog_bind (BaseEngine.__init__ (relation <$> relations) rules seed) (fun r =>
    match r with
    | Threw e => Ret (Threw e)
    | Done (fields, rng) =>
        let self := mkInstance fields rng cleanup_files in
        let missing_types :=
          foldl (fun missing relation =>
                   if negb (has_types relation) then true else missing)
                false relations in
        if missing_types then
          Do (Stdout ("Warning: Required types are missing for Tuffy, inferring types."
                     +:+ NL))
             (fun x =>
                match x with
                | inl _ => Ret (Threw (AttributeError "_infer_variable_types"))
                | inr e => Ret (Threw (HostError e))
                end)
        else Ret (Done self)
    end).

(** Tuffy does not override [ground]. *)
Definition ground : action unit := BaseEngine.ground.

Definition _write_file (path : string) (lines : list string) : action unit :=
  call (WriteText path (_write_file lines)).

Definition _write_program (path : string) : action unit :=
  self ← get;
  program ← lift (_write_program (state self));
  _write_file path program.

Definition _write_evidence (path : string) : action unit :=
  self ← get;
  evidence ← lift (_write_evidence (state self));
  _write_file path evidence.

Definition _write_query (path : string) : action unit :=
  self ← get;
  _write_file path (_write_query (state self)).

Definition _prep_run : action (string * string) :=
  temp_dir ← call (Mkdtemp TEMP_DIR_PREFIX);
  let program_path := path_join temp_dir PROGRAM_FILENAME in
  let evidence_path := path_join temp_dir EVIDENCE_FILENAME in
  let query_path := path_join temp_dir QUERY_FILENAME in
  let output_path := path_join temp_dir OUTPUT_FILENAME in
  _write_program program_path;;
  _write_evidence evidence_path;;
  _write_query query_path;;
  mret (temp_dir, output_path).

Definition _cleanup (temp_dir : string) : action unit :=
  self ← get;
  if _cleanup_files self then call (Rmtree temp_dir) else mret tt.

(** [for line in container.logs(stream = True): print(line.decode(), end = '')] *)
Fixpoint print_lines (lines : list string) : action unit :=
  match lines with
  | [] => mret tt
  | line :: rest => call (Stdout line);; print_lines rest
  end.

Definition _run_tuffy (io_dir : string) (additional_args : list string) : action unit :=
  call DockerFromEnv;;
  call (DockerBuild (LIB_DIR THIS_DIR) DOCKER_TAG);;
  except_not_found (call (DockerGet DOCKER_TAG);; call (DockerRemove DOCKER_TAG));;
  call (DockerRun DOCKER_TAG additional_args io_dir DOCKER_TUFFY_IO_DIR "rw" DOCKER_TAG);;
  lines ← call (DockerLogs DOCKER_TAG);
  print_lines lines;;
  call (Stdout NL);;
  call (DockerWait DOCKER_TAG).

(** The loop of [_parse_weights] over the lines of the file; a prior line
    changes the relation object at once. *)
Fixpoint parse_weights_loop (relation_map : gmap string nat) (skip : bool)
    (new_weights : list slot) (lines : list string) : action (list slot) :=
  match lines with
  | [] => mret new_weights
  | line :: rest =>
      self ← get;
      st ← lift (parse_weights_line relation_map
                   (mkWS skip new_weights (_relations (state self))) line);
      put (mkInstance (mkTuffy _ (ws_relations st) (_rules (state self)))
                      (_rng self) (_cleanup_files self));;
      parse_weights_loop relation_map (ws_skip st) (ws_new_weights st) rest
  end.

Definition _parse_weights (path : string) : action (list slot) :=
  self ← get;
  let new_weights := replicate (length (_rules (state self))) SFalse in
  let relation_map := relation_map (state self) in
  lines ← call (ReadLines path);
  parse_weights_loop relation_map true new_weights lines.

Definition _read_results (path : string) (has_value : bool)
    : action (gmap (option nat) (gmap (list string) float)) :=
  self ← get;
  lines ← call (ReadLines path);
  lift (_read_results (state self) lines has_value).

(** [for i in range(len(self._rules)): self._rules[i].set_weight(weights[i])],
    from [i] on, [n] rules to go. *)
Fixpoint set_weights (weights : list slot) (i n : nat) : action unit :=
  match n with
  | O => mret tt
  | S n' =>
      self ← get;
      match weights !! i with
      | None => throw (Raised IndexError)
      | Some w =>
          put (mkInstance
                 (mkTuffy _ (_relations (state self))
                    (alter (Rule.set_weight w) i (_rules (state self))))
                 (_rng self) (_cleanup_files self));;
          set_weights weights (S i) n'
      end
  end.

Definition learn : action unit :=
  '(temp_dir, output_path) ← _prep_run;
  _run_tuffy temp_dir ["-learnwt"];;
  weights ← _parse_weights output_path;
  self ← get;
  set_weights weights 0 (length (_rules (state self)));;
  _cleanup temp_dir.

(** The loops of [solve] over the relations and their query rows. *)
Definition solve : action (gmap nat (list row)) :=
  '(temp_dir, output_path) ← _prep_run;
  _run_tuffy temp_dir [];;
  raw_results ← _read_results output_path false;
  _cleanup temp_dir;;
  self ← get;
  lift (solve_relations raw_results 0 (_relations (state self)) ∅).

End methods.
End Run.

(** *** Running a method *)

Section exec.
Context `{PyFloat}.
Variable host : Type.
Variable respond : host -> forall o : op, (reply o + host_error) * host.

(** The method [m], run on the object [self] by the host in state [h],
    makes the calls [t], leaves the host in [h'] and the object as [self'],
    and returns or raises [out]. *)
Definition runs {A : Type} (m : action A) (self : instance) (h : host)
    (t : list event) (h' : host) (self' : instance) (out : outcome A) : Prop :=
  run host respond (m self) h = (t, h', (self', out)).

End exec.
Arguments runs {H host} respond {A} m self h t h' self' out.

(** The text that print wrote. *)
Definition printed (t : list event) : list string :=
  flat_map (fun e =>
    match ev_op e with
    | Stdout text => if answered e then [text] else []
    | _ => []
    end) t.

(** The paths of one run: the four files and the directory that holds
    them. *)
Definition temp_files (d : string) : list string :=
  [path_join d PROGRAM_FILENAME; path_join d EVIDENCE_FILENAME;
   path_join d QUERY_FILENAME; path_join d OUTPUT_FILENAME; d].

(** Every path that a call names belongs to the one directory that
    [mkdtemp] returned in the same run. *)
Definition confined (t : list event) : Prop :=
  match made t with
  | [] => touched t = []
  | [d] => touched t ⊆ temp_files d
  | _ => False
  end.

(** The trace names no path and makes no directory. *)
Definition no_files (t : list event) : Prop :=
  made t = [] ∧ written t = [] ∧ read t = [] ∧ removed t = [] ∧ touched t = [].

(** Membership in a list that is written out. *)
Ltac in_list := repeat first [apply list_elem_of_here | apply list_elem_of_further].

(** A list that is written out lies in another. *)
Ltac confine :=
  let p := fresh "p" in
  let Hp := fresh "Hp" in
  intros p Hp; cbn in Hp;
  repeat (apply elem_of_cons in Hp as [->|Hp]; [in_list|]);
  by apply elem_of_nil in Hp.


(** A host to run the statements on: it answers every call, knows no
    container, and every file read holds the given lines. *)
Definition scripted (lines : list string) (h : unit) (o : op)
    : (reply o + host_error) * unit :=
  (match o as o' return reply o' + host_error with
   | Randint lo _ => inl lo
   | Mkdtemp prefix => inl ("/tmp/" +:+ prefix +:+ "0")
   | ReadLines _ => inl lines
   | DockerLogs _ => inl ["Tuffy log" +:+ NL]
   | DockerGet _ => inr NotFound
   | Stdout _ | WriteText _ _ | Rmtree _ | DockerFromEnv | DockerBuild _ _
   | DockerRemove _ | DockerRun _ _ _ _ _ _ | DockerWait _ => inl tt
   end, h).


(** * Properties *)

(** ** The error monad and strings *)

Lemma bind_Ok {A B} (m : result A) (f : A → result B) (b : B) :
  m ≫= f = Ok b ↔ ∃ a, m = Ok a ∧ f a = Ok b.
Proof.
  destruct m as [a|e]; simpl; split.
  - eauto.
  - intros (a' & [= <-] & ?). done.
  - done.
  - intros (a' & ? & ?). done.
Qed.

Lemma app_cons (c : ascii) (a b : string) : String c a +:+ b = String c (a +:+ b).
Proof. reflexivity. Qed.

Lemma app_empty_l (b : string) : EmptyString +:+ b = b.
Proof. reflexivity. Qed.

Lemma app_empty_r (a : string) : a +:+ EmptyString = a.
Proof. induction a as [|c a IH]; [done|]. by rewrite app_cons, IH. Qed.

Lemma app_assoc_str (a b c : string) : (a +:+ b) +:+ c = a +:+ (b +:+ c).
Proof. induction a as [|x a IH]; [done|]. by rewrite !app_cons, IH. Qed.

Lemma startswith_app (l b : string) : Str.startswith l (l +:+ b) = true.
Proof.
  induction l as [|c l IH]; [done|]. rewrite app_cons. cbn.
  destruct (ascii_dec c c); [done | congruence].
Qed.



(** Replacing one character by another acts on every character by itself. *)
Lemma replace_char_map (a b : ascii) (s : string) :
  Str.replace (String a EmptyString) (String b EmptyString) s =
  Str.map (fun c => if ascii_dec c a then b else c) s.
Proof.
  unfold Str.replace. induction s as [|c s IH]; [done|].
  cbn [Str.replace_go Str.startswith Str.map].
  destruct (ascii_dec a c) as [<-|Hc].
  - destruct (ascii_dec a a); [|done]. cbn. by rewrite IH.
  - destruct (ascii_dec c a) as [->|]; [done|]. by rewrite IH.
Qed.








(** ** The program writer *)

Section program_writer.
Context `{PyFloat}.

Lemma rule_line_total (rels : list Relation.t) (r : Rule.t) :
  ∃ line, rule_line rels r = Ok line.
Proof.
  unfold rule_line, Rule.is_weighted. destruct (Rule.weight r); simpl; eauto.
Qed.

Lemma rule_lines_Forall2 (rels : list Relation.t) (rules : list Rule.t) :
  ∃ ls, rule_lines rels rules = Ok ls ∧
        Forall2 (fun r l => rule_line rels r = Ok l) rules ls.
Proof.
  induction rules as [|r rules (ls & Hls & Hall)]; simpl.
  - exists []. split; [done | constructor].
  - destruct (rule_line_total rels r) as [l Hl]. rewrite Hl, Hls. simpl.
    exists (l :: ls). split; [done | by constructor].
Qed.

Lemma has_prior_from (b : bool) (rels : list Relation.t) :
  foldl (fun acc relation => acc || Relation.has_negative_prior_weight relation) b rels
  = b || existsb Relation.has_negative_prior_weight rels.
Proof.
  revert b. induction rels as [|r rels IH]; intros b; simpl.
  - by rewrite orb_false_r.
  - rewrite IH. by rewrite orb_assoc.
Qed.

Lemma has_prior_iff (rels : list Relation.t) :
  has_prior rels = true ↔
  ∃ rel, rel ∈ rels ∧ is_Some (Relation.get_negative_prior_weight rel).
Proof.
  unfold has_prior. rewrite has_prior_from. simpl. rewrite existsb_exists.
  split; intros (rel & Hin & Hw); exists rel.
  - split; [by apply list_elem_of_In|].
    unfold Relation.has_negative_prior_weight in Hw.
    destruct (Relation.get_negative_prior_weight rel); [eauto | done].
  - split; [by apply list_elem_of_In|].
    unfold Relation.has_negative_prior_weight. by destruct Hw as [w ->].
Qed.

Lemma prior_lines_filter (rels : list Relation.t) :
  Forall2 (fun rel line =>
             ∃ w, Relation.get_negative_prior_weight rel = Some w ∧
                  line = prior_line rel w)
          (filter (fun rel => Relation.has_negative_prior_weight rel = true) rels)
          (prior_lines rels).
Proof.
  induction rels as [|r rels IH]; [constructor|].
  unfold prior_lines. simpl.
  destruct (Relation.get_negative_prior_weight r) as [w|] eqn:Hw; simpl.
  - rewrite filter_cons_True
      by (unfold Relation.has_negative_prior_weight; by rewrite Hw).
    constructor; eauto.
  - rewrite filter_cons_False
      by (unfold Relation.has_negative_prior_weight; by rewrite Hw).
    exact IH.
Qed.

(** [string.ascii_lowercase[0:n]]: at most 26 letters. *)
Lemma letters_length (n : nat) : length (take n ascii_lowercase) = n `min` 26.
Proof. rewrite length_take. reflexivity. Qed.

Lemma letters_lookup (n k : nat) :
  (k < n `min` 26)%nat →
  take n ascii_lowercase !! k = Some (String (ascii_of_nat (97 + k)) EmptyString).
Proof.
  intros Hk. rewrite lookup_take_lt by lia.
  assert (k < 26)%nat as Hk26 by lia. clear Hk.
  do 26 (destruct k as [|k]; [reflexivity|]). lia.
Qed.

Lemma letters_NoDup (n : nat) : NoDup (take n ascii_lowercase).
Proof.
  eapply sublist_NoDup; [|apply sublist_take].
  apply (bool_decide_unpack _). vm_compute. exact I.
Qed.



(** The lines of the program: declarations, a blank line, the rule lines
    and, when some relation has a prior weight, a blank line and the prior
    lines. *)
Lemma write_program_shape (self : Tuffy) :
  ∃ ls, rule_lines (_relations self) (_rules self) = Ok ls
    ∧ Forall2 (fun r l => rule_line (_relations self) r = Ok l) (_rules self) ls
    ∧ _write_program self =
        Ok ((declaration <$> _relations self) ++ [EmptyString] ++ ls ++
            (if has_prior (_relations self)
             then EmptyString :: prior_lines (_relations self) else [])).
Proof.
  destruct (rule_lines_Forall2 (_relations self) (_rules self)) as (ls & Hls & Hall).
  exists ls. split; [done|]. split; [done|].
  unfold _write_program. rewrite Hls. simpl. f_equal.
  destruct (has_prior _); rewrite <- ?app_assoc; simpl; [done|].
  by rewrite app_nil_r.
Qed.


End program_writer.


(** C9, as amended: a blank line and the prior lines follow the rules if and
    only if some relation carries a negative prior weight; there is one line
    [<weight> !<name>(<vars>)] per such relation, in declaration order, and
    [<vars>] are the first [min(arity, 26)] letters of the alphabet, distinct
    and joined by [", "]: the alphabet is cut at its end, so a relation of
    arity above 26 gets 26 variables. *)
Theorem write_program_priors `{PyFloat} (self : Tuffy) :
  let rels := _relations self in
  let priors := filter (fun rel => Relation.has_negative_prior_weight rel = true) rels in
  ∃ rule_ls prior_ls,
    rule_lines rels (_rules self) = Ok rule_ls
    ∧ _write_program self =
        Ok (((declaration <$> rels) ++ [EmptyString] ++ rule_ls) ++
            (if bool_decide (priors = []) then [] else EmptyString :: prior_ls))
    ∧ (priors = [] ↔
       ¬ ∃ rel, rel ∈ rels ∧ is_Some (Relation.get_negative_prior_weight rel))
    ∧ length prior_ls = length priors
    ∧ ∀ j rel, priors !! j = Some rel →
        ∃ w vars,
          Relation.get_negative_prior_weight rel = Some w
          ∧ prior_ls !! j =
              Some (fmt_f w +:+ " !" +:+ Relation.name rel +:+ "(" +:+
                    Str.join ", " vars +:+ ")")
          ∧ length vars = Relation.arity rel `min` 26
          ∧ NoDup vars
          ∧ ∀ k, (k < length vars)%nat →
              vars !! k = Some (String (ascii_of_nat (97 + k)) EmptyString).
Proof.
  intros rels priors.
  destruct (write_program_shape self) as (ls & Hls & _ & Hprog).
  fold rels in Hls, Hprog.
  assert (priors = [] ↔ has_prior rels = false) as Hnil.
  { rewrite <- not_true_iff_false, has_prior_iff. subst priors. split.
    - intros Hnil (rel & Hin & Hw).
      assert (rel ∈ filter (fun rel => Relation.has_negative_prior_weight rel = true) rels)
        as Hf.
      { apply list_elem_of_filter. split; [|done].
        unfold Relation.has_negative_prior_weight. by destruct Hw as [w ->]. }
      rewrite Hnil in Hf. by apply elem_of_nil in Hf.
    - intros Hno.
      destruct (filter _ rels) as [|rel l] eqn:Hf; [done|]. exfalso. apply Hno.
      assert (rel ∈ filter (fun rel => Relation.has_negative_prior_weight rel = true) rels)
        as Hin by (rewrite Hf; left).
      apply list_elem_of_filter in Hin as [Hw Hin]. exists rel. split; [done|].
      unfold Relation.has_negative_prior_weight in Hw.
      destruct (Relation.get_negative_prior_weight rel); [eauto | done]. }
  exists ls, (prior_lines rels).
  split; [done|]. split; [|split; [|split]].
  - rewrite Hprog. f_equal. case_bool_decide as Hp.
    + apply Hnil in Hp. rewrite Hp. by rewrite !app_nil_r.
    + destruct (has_prior rels) eqn:Hhp; [by rewrite <- !app_assoc|].
      destruct Hp. by apply Hnil.
  - rewrite Hnil, <- not_true_iff_false. by rewrite has_prior_iff.
  - symmetry. eapply Forall2_length, prior_lines_filter.
  - intros j rel Hj.
    destruct (Forall2_lookup_l _ _ _ _ _ (prior_lines_filter rels) Hj)
      as (line & Hline & w & Hw & ->).
    exists w, (take (Relation.arity rel) ascii_lowercase).
    split; [done|]. split; [done|]. split; [apply letters_length|].
    split; [apply letters_NoDup|].
    intros k Hk. rewrite letters_length in Hk. by apply letters_lookup.
Qed.

(** ** The patterns: what a match says about the text *)

Lemma len_app (a b : string) : Str.len (a +:+ b) = (Str.len a + Str.len b)%nat.
Proof. induction a as [|x a IH]; [done|]. rewrite app_cons. cbn. by rewrite <- IH. Qed.

Lemma take_app_len (a b : string) : Str.take (Str.len a) (a +:+ b) = a.
Proof. induction a as [|x a IH]; [by destruct b|]. rewrite app_cons. cbn. by rewrite IH. Qed.

Lemma drop_app_len (a b : string) : Str.drop (Str.len a) (a +:+ b) = b.
Proof. induction a as [|x a IH]; [done|]. rewrite app_cons. cbn. by rewrite IH. Qed.

Lemma startswith_inv (l s : string) :
  Str.startswith l s = true → s = l +:+ Str.drop (Str.len l) s.
Proof.
  revert s. induction l as [|x l IH]; intros s Hs; [done|].
  destruct s as [|y s]; [done|]. cbn in Hs.
  destruct (ascii_dec x y) as [->|]; [|done]. rewrite app_cons. cbn.
  by rewrite <- IH.
Qed.

Lemma rep_sound g p k need pos s res :
  Re.rep g p k need pos s = Some res →
  ∃ c rest, s = c +:+ rest ∧ all_chars p c = true ∧ (need ≤ Str.len c)%nat ∧
            k (pos + Str.len c)%nat rest = Some res.
Proof.
  revert need pos. induction s as [|x s IH]; intros need pos Hrep.
  - cbn in Hrep. destruct need; [|done].
    exists EmptyString, EmptyString. rewrite Nat.add_0_r. done.
  - cbn [Re.rep] in Hrep.
    assert (match need with O => k pos (String x s) | S _ => None end = Some res →
            ∃ c rest, String x s = c +:+ rest ∧ all_chars p c = true ∧
                      (need ≤ Str.len c)%nat ∧ k (pos + Str.len c)%nat rest = Some res)
      as Hstop.
    { destruct need; [|done]. intros Hk.
      exists EmptyString, (String x s). rewrite Nat.add_0_r. done. }
    assert (Re.rep g p k (pred need) (S pos) s = Some res → p x = true →
            ∃ c rest, String x s = c +:+ rest ∧ all_chars p c = true ∧
                      (need ≤ Str.len c)%nat ∧ k (pos + Str.len c)%nat rest = Some res)
      as Hmore.
    { intros Hr Hp. apply IH in Hr as (c & rest & -> & Hall & Hlen & Hk).
      exists (String x c), rest. rewrite app_cons. cbn. rewrite Hp, Hall.
      split; [done|]. split; [done|]. split; [lia|].
      by replace (pos + S (Str.len c))%nat with (S pos + Str.len c)%nat by lia. }
    destruct (p x) eqn:Hp; [|by apply Hstop].
    destruct g.
    + destruct (Re.rep true p k (pred need) (S pos) s) eqn:Hr.
      * injection Hrep as ->. by apply Hmore.
      * by apply Hstop.
    + destruct (match need with O => k pos (String x s) | S _ => None end) eqn:Hs.
      * injection Hrep as ->. by apply Hstop.
      * by apply Hmore.
Qed.

Lemma exec_sound r k pos s caps res :
  Re.exec r k pos s caps = Some res →
  ∃ c rest caps',
    s = c +:+ rest ∧ matches r pos c rest caps' ∧
    k (pos + Str.len c)%nat rest (caps ++ caps') = Some res.
Proof.
  revert k pos s caps res.
  induction r as [| |l|x|g n p|r1 IH1|r1 IH1 r2 IH2]; intros k pos s caps res Hexec;
    cbn [Re.exec] in Hexec.
  - destruct pos; [|done]. exists EmptyString, s, []. by rewrite app_nil_r.
  - destruct (Re.at_end s) eqn:Hend; [|done].
    exists EmptyString, s, []. by rewrite app_nil_r, Nat.add_0_r.
  - destruct (Str.startswith l s) eqn:Hl; [|done].
    exists l, (Str.drop (Str.len l) s), []. rewrite app_nil_r.
    split; [by apply startswith_inv | done].
  - assert (k pos s caps = Some res →
            ∃ c rest caps', s = c +:+ rest ∧ matches (Re.Opt x) pos c rest caps' ∧
              k (pos + Str.len c)%nat rest (caps ++ caps') = Some res) as Hnone.
    { intros Hk. exists EmptyString, s, []. rewrite app_nil_r, Nat.add_0_r.
      cbn. eauto. }
    destruct s as [|a s]; [by apply Hnone|].
    destruct (ascii_dec a x) as [->|]; [|by apply Hnone].
    destruct (k (S pos) s caps) eqn:Hk; [|by apply Hnone].
    injection Hexec as ->. exists (String x EmptyString), s, [].
    rewrite app_nil_r. cbn. replace (pos + 1)%nat with (S pos) by lia. eauto.
  - apply rep_sound in Hexec as (c & rest & -> & Hall & Hlen & Hk).
    exists c, rest, []. by rewrite app_nil_r.
  - apply IH1 in Hexec as (c & rest & caps1 & -> & Hm & Hk).
    exists c, rest, (caps1 ++ [c]). split; [done|]. split; [cbn; eauto|].
    replace (pos + Str.len c - pos)%nat with (Str.len c) in Hk by lia.
    by rewrite take_app_len, <- app_assoc in Hk.
  - apply IH1 in Hexec as (c1 & rest1 & caps1 & -> & Hm1 & Hk1).
    apply IH2 in Hk1 as (c2 & rest & caps2 & -> & Hm2 & Hk).
    exists (c1 +:+ c2), rest, (caps1 ++ caps2).
    split; [by rewrite app_assoc_str|]. split.
    + cbn. exists c1, c2, caps1, caps2. done.
    + by rewrite len_app, Nat.add_assoc, app_assoc.
Qed.

Lemma search_from_sound r pos s res :
  Re.search_from r pos s = Some res →
  ∃ pre c rest,
    s = pre +:+ c +:+ rest ∧ matches r (pos + Str.len pre) c rest res.2.
Proof.
  revert pos. induction s as [|x s IH]; intros pos Hs; cbn [Re.search_from] in Hs.
  - destruct (Re.match_at r pos EmptyString) as [m|] eqn:Hm; [|done].
    injection Hs as ->. apply exec_sound in Hm as (c & rest & caps & Heq & Hm & [= <-]).
    exists EmptyString, c, rest. by rewrite Nat.add_0_r.
  - destruct (Re.match_at r pos (String x s)) as [m|] eqn:Hm.
    + injection Hs as ->. apply exec_sound in Hm as (c & rest & caps & Heq & Hm & [= <-]).
      exists EmptyString, c, rest. by rewrite Nat.add_0_r.
    + apply IH in Hs as (pre & c & rest & -> & Hm').
      exists (String x pre), c, rest. split; [done|]. cbn.
      by replace (pos + S (Str.len pre))%nat with (S pos + Str.len pre)%nat by lia.
Qed.

Lemma search_sound r s m :
  Re.search r s = Some m →
  ∃ pre c rest, s = pre +:+ c +:+ rest ∧ matches r (Str.len pre) c rest m.
Proof.
  unfold Re.search. destruct (Re.search_from r 0 s) as [res|] eqn:Hs; [|done].
  intros [= <-]. by apply search_from_sound in Hs.
Qed.


Lemma len_pos_nonempty (s : string) : (1 ≤ Str.len s)%nat → s ≠ EmptyString.
Proof. destruct s; cbn; [lia | done]. Qed.

Lemma app_empty_inv (a b : string) : a +:+ b = EmptyString → a = EmptyString ∧ b = EmptyString.
Proof. destruct a; [done|]. by rewrite app_cons. Qed.

Lemma len_zero_empty (s : string) : Str.len s = 0%nat → s = EmptyString.
Proof. by destruct s. Qed.

Lemma float_re_shape pos c rest caps :
  matches float_re pos c rest caps → float_literal c ∧ caps = [].
Proof.
  cbn. intros Hm. break_match_hyps. subst. rewrite !app_nil_r, ?app_empty_r.
  split; [|done]. eexists _, _, _. split; [reflexivity|].
  split; [done|]. split; split; try done; by apply len_pos_nonempty.
Qed.

Lemma index_re_shape pos c rest caps :
  matches index_re pos c rest caps →
  ∃ ds, c = "//" +:+ ds +:+ ".0" ∧ caps = [ds +:+ ".0"] ∧ run_of Str.is_digit ds.
Proof.
  cbn. intros Hm. break_match_hyps. subst. rewrite ?app_empty_r.
  eexists. split; [reflexivity|]. split; [done|].
  split; [done | by apply len_pos_nonempty].
Qed.

Lemma at_end_line_end (s : string) : Re.at_end s = true → line_end s.
Proof.
  destruct s as [|c [|]]; cbn; [by left| |done].
  destruct (ascii_dec c "010") as [->|]; [by right | done].
Qed.

(** A line that the soft-rule pattern matches: a float literal, white
    space, a text without newline, white space and the index comment. *)
Lemma soft_match_shape (l : string) (m : list string) :
  Re.search soft_re l = Some m →
  ∃ w sp1 body sp2 ds nl,
    l = w +:+ sp1 +:+ body +:+ sp2 +:+ "//" +:+ ds +:+ ".0" +:+ nl
    ∧ m = [w; ds +:+ ".0"]
    ∧ float_literal w ∧ run_of Str.is_space sp1 ∧ run_of Re.any body
    ∧ run_of Str.is_space sp2 ∧ run_of Str.is_digit ds ∧ line_end nl.
Proof.
  intros Hs. apply search_sound in Hs as (pre & c & rest & -> & Hm).
  unfold soft_re in Hm. cbn -[float_re index_re] in Hm. break_match_hyps. subst.
  match goal with H : Str.len pre = 0%nat |- _ => apply len_zero_empty in H as -> end.
  match goal with H : matches float_re _ _ _ _ |- _ =>
    apply float_re_shape in H as [Hw ->] end.
  match goal with H : matches index_re _ _ _ _ |- _ =>
    apply index_re_shape in H as (ds & -> & -> & Hds) end.
  match goal with H : Re.at_end _ = true |- _ =>
    apply at_end_line_end in H; rewrite ?app_empty_l in H end.
  rewrite !app_empty_l, ?app_empty_r, !app_assoc_str.
  eexists _, _, _, _, ds, rest.
  split; [reflexivity|]. split; [reflexivity|].
  destruct Hds. repeat split; (done || by apply len_pos_nonempty).
Qed.

(** A line that the prior pattern matches. *)
Lemma prior_match_shape (l : string) (m : list string) :
  Re.search prior_re l = Some m →
  ∃ w sp1 name args sp2 ds nl,
    l = w +:+ sp1 +:+ "!" +:+ name +:+ "(" +:+ args +:+ ")" +:+ sp2 +:+
        "//" +:+ ds +:+ ".0" +:+ nl
    ∧ m = [w; name; ds +:+ ".0"]
    ∧ float_literal w ∧ run_of Str.is_space sp1 ∧ run_of Str.is_word name
    ∧ run_of (Re.isnt ")") args ∧ run_of Str.is_space sp2
    ∧ run_of Str.is_digit ds ∧ line_end nl.
Proof.
  intros Hs. apply search_sound in Hs as (pre & c & rest & -> & Hm).
  unfold prior_re in Hm. cbn -[float_re index_re] in Hm. break_match_hyps. subst.
  match goal with H : Str.len pre = 0%nat |- _ => apply len_zero_empty in H as -> end.
  match goal with H : matches float_re _ _ _ _ |- _ =>
    apply float_re_shape in H as [Hw ->] end.
  match goal with H : matches index_re _ _ _ _ |- _ =>
    apply index_re_shape in H as (ds & -> & -> & Hds) end.
  match goal with H : Re.at_end _ = true |- _ =>
    apply at_end_line_end in H; rewrite ?app_empty_l in H end.
  rewrite !app_empty_l, ?app_empty_r, !app_assoc_str.
  eexists _, _, _, _, _, ds, rest.
  split; [reflexivity|]. split; [reflexivity|].
  destruct Hds. repeat split; (done || by apply len_pos_nonempty).
Qed.

(** A line that the hard-rule pattern matches. *)
Lemma hard_match_shape (l : string) (m : list string) :
  Re.search hard_re l = Some m →
  ∃ pre ds nl,
    l = pre +:+ " . //" +:+ ds +:+ ".0hardfixed" +:+ nl
    ∧ m = [ds +:+ ".0"] ∧ run_of Str.is_digit ds ∧ line_end nl.
Proof.
  intros Hs. apply search_sound in Hs as (pre & c & rest & -> & Hm).
  unfold hard_re in Hm. cbn -[index_re] in Hm. break_match_hyps. subst.
  match goal with H : matches index_re _ _ _ _ |- _ =>
    apply index_re_shape in H as (ds & -> & -> & Hds) end.
  match goal with H : Re.at_end _ = true |- _ =>
    apply at_end_line_end in H; rewrite ?app_empty_l in H end.
  exists pre, ds, rest.
  split; [|done].
  rewrite ?app_empty_r, !app_assoc_str. reflexivity.
Qed.





Lemma decimal_go_run (s : string) (acc : N) :
  all_chars Str.is_digit s = true → ∃ n, decimal_go acc s = Some n.
Proof.
  revert acc. induction s as [|c s IH]; intros acc Hall; [by eexists|].
  cbn in Hall. apply andb_true_iff in Hall as [Hc Hall]. cbn. rewrite Hc. by apply IH.
Qed.

Lemma decimal_value_run (ds : string) :
  run_of Str.is_digit ds → ∃ n, decimal_value ds = Some n.
Proof.
  intros [Hall Hne]. destruct ds as [|c ds]; [done|]. by apply decimal_go_run.
Qed.


(** The 27 type tags of [wide], written out. *)
Lemma wide_declaration `{PyFloat} :
  declaration wide =
  "Wide(t, t, t, t, t, t, t, t, t, t, t, t, t, t, t, t, t, t, t, t, t, t, t, t, t, t, t)".
Proof. reflexivity. Qed.

(** C9 fails as stated: a relation of arity 27 gets the 26 letters of the
    alphabet as variables, one fewer than its arity. *)
Lemma prior_variables_cut :
  Relation.arity (wide (H := Micro.micro)) = 27%nat
  ∧ _write_program (mkTuffy Micro.micro [wide] []) =
      Ok [declaration wide; ""; "";
          "1.000000 !Wide(" +:+ Str.join ", " ascii_lowercase +:+ ")"]
  ∧ length ascii_lowercase = 26%nat.
Proof. split; [reflexivity|]. split; reflexivity. Defined.



(** ** The evidence and query writers *)

(** [s.replace(' ', '_')] acts on every character by itself. *)
Lemma replace_space_map (s : string) :
  Str.replace " " "_" s =
  Str.map (fun c => if ascii_dec c " " then "_"%char else c) s.
Proof. apply (replace_char_map " " "_"). Qed.

Section fact_writers.
Context `{PyFloat}.

Lemma fact_underscore (rel : Relation.t) (row : list string) :
  fact rel (underscore_row row) = fact_of rel row.
Proof. unfold fact, fact_of, underscore_row. by rewrite fmap_take. Qed.

Lemma evidence_line_spec (rel : Relation.t) (row : list string) (line : string) :
  evidence_line rel row = Ok line ↔ evidence_of rel row line.
Proof.
  unfold evidence_line, evidence_of. rewrite fact_underscore.
  unfold underscore_row at 1 2. rewrite length_fmap, fmap_last.
  destruct (Relation.arity rel <? length row)%nat.
  - destruct (last row) as [x|]; cbn [fmap option_fmap option_map].
    + unfold to_float.
      destruct (float_of_str (Str.replace " " "_" x)) as [w|] eqn:Hw;
        cbn [mbind result_bind].
      * split; [intros [= <-]; eauto|].
        intros (? & ? & [= <-] & Hw' & ->). rewrite Hw in Hw'. by injection Hw' as <-.
      * split; [done|]. intros (? & ? & [= <-] & Hw' & _). by rewrite Hw in Hw'.
    + split; [done|]. by intros (? & ? & ? & _).
  - split; [by intros [= <-] | by intros ->].
Qed.

Lemma evidence_rows_spec (rel : Relation.t) (rows : list (list string))
    (lines : list string) :
  evidence_rows rel rows = Ok lines ↔ Forall2 (evidence_of rel) rows lines.
Proof.
  revert lines. induction rows as [|row rows IH]; intros lines; simpl.
  - split; [intros [= <-]; constructor | by intros ->%Forall2_nil_inv_l].
  - rewrite bind_Ok. split.
    + intros (l & Hl & (ls & Hls & [= <-])%bind_Ok).
      constructor; [by apply evidence_line_spec | by apply IH].
    + intros (l & ls & Hl & Hls & ->)%Forall2_cons_inv_l.
      exists l. split; [by apply evidence_line_spec|].
      apply bind_Ok. exists ls. split; [by apply IH | done].
Qed.

Lemma evidence_relations_spec (rels : list Relation.t) (lines : list string) :
  evidence_relations rels = Ok lines ↔
  Forall2 (fun '(rel, row) line => evidence_of rel row line)
          (flat_map (fun rel => pair rel <$> Relation.get_observed_data rel) rels)
          lines.
Proof.
  revert lines. induction rels as [|rel rels IH]; intros lines; simpl.
  - split; [intros [= <-]; constructor | by intros ->%Forall2_nil_inv_l].
  - assert (∀ ls, Forall2 (evidence_of rel) (Relation.get_observed_data rel) ls ↔
              Forall2 (fun '(rel, row) line => evidence_of rel row line)
                      (pair rel <$> Relation.get_observed_data rel) ls) as Hpair.
    { intros ls. by rewrite Forall2_fmap_l. }
    unfold Relation.has_observed_data.
    case_bool_decide as Hdata; simpl.
    + rewrite Hdata. simpl. apply IH.
    + rewrite bind_Ok. split.
      * intros (l1 & Hl1 & (l2 & Hl2 & [= <-])%bind_Ok).
        apply Forall2_app; [by apply Hpair, evidence_rows_spec | by apply IH].
      * intros (l1 & l2 & H1 & H2 & ->)%Forall2_app_inv_l.
        exists l1. split; [by apply evidence_rows_spec, Hpair|].
        apply bind_Ok. exists l2. split; [by apply IH | done].
Qed.

Lemma query_relations_spec (rels : list Relation.t) :
  query_relations rels =
  flat_map (fun rel => fact_of rel <$> Relation.get_unobserved_data rel) rels.
Proof.
  induction rels as [|rel rels IH]; [done|]. simpl.
  unfold Relation.has_unobserved_data. case_bool_decide as Hdata; simpl.
  - by rewrite Hdata.
  - rewrite IH. f_equal. apply list_fmap_ext. intros _ row _.
    apply fact_underscore.
Qed.
End fact_writers.

(** C7: the query writer emits one fact line per unobserved row and the
    evidence writer one per observed row, relation after relation, each
    [name(arg0, ..., argN-1)] over the first [arity] columns with every space
    of an argument replaced by an underscore; an evidence row that is longer
    than the arity, and no other row, has its last column read as a float and
    printed in front of the fact ([<weight> name(...)]).  The evidence writer
    returns exactly when those last columns are floats. *)
Theorem write_facts `{PyFloat} (self : Tuffy) :
  _write_query self =
    flat_map (fun rel => fact_of rel <$> Relation.get_unobserved_data rel)
             (_relations self)
  ∧ (∀ lines,
       _write_evidence self = Ok lines ↔
       Forall2 (fun '(rel, row) line => evidence_of rel row line)
               (flat_map (fun rel => pair rel <$> Relation.get_observed_data rel)
                         (_relations self))
               lines)
  ∧ (∀ rel row,
       fact_of rel row =
       Relation.name rel +:+ "(" +:+
       Str.join ", "
         (Str.map (fun c => if ascii_dec c " " then "_"%char else c)
            <$> take (Relation.arity rel) row) +:+ ")").
Proof.
  split; [apply query_relations_spec|].
  split; [intros lines; apply evidence_relations_spec|].
  intros rel row. unfold fact_of.
  erewrite list_fmap_ext; [reflexivity|]. intros _ s _. apply replace_space_map.
Qed.

(** ** The result parser and solve *)

Section result_parser.
Context `{PyFloat}.

Lemma read_results_line_step (self : Tuffy) (has_value : bool)
    (results : gmap (option nat) (gmap (list string) float)) (line : string) :
  read_results_line self has_value results line =
  if bool_decide (Str.strip line = EmptyString) then Ok results
  else v ← result_value has_value line;
       Ok (<[result_key self line :=
               <[result_args line := v]>
                 (default ∅ (results !! result_key self line))]> results).
Proof.
  unfold read_results_line. case_bool_decide; [done|].
  fold (result_parts line). fold (result_value has_value line).
  destruct (result_value has_value line) as [v|e]; [|done].
  cbn [mbind result_bind].
  unfold result_key, result_args.
  destruct (Str.partition "(" (nth 0 (result_parts line) EmptyString))
    as [[predicate sep] arguments]. cbn [fst snd].
  destruct (results !! _find_relation self predicate) as [d|] eqn:Hd.
  - by rewrite Hd.
  - rewrite lookup_insert_eq. cbn [default]. by rewrite insert_insert_eq.
Qed.

Lemma store_entries_is_Some d es :
  es ≠ [] → is_Some (store_entries d es).
Proof.
  revert d. induction es as [|e es IH]; intros d Hne; [done|]. simpl.
  destruct es as [|e' es]; [by eexists|]. by apply IH.
Qed.

Lemma store_entries_None_nil (es : list (list string * float)) :
  store_entries None es = None ↔ es = [].
Proof.
  split; [|by intros ->]. destruct es as [|e es]; [done|]. intros Hnone.
  destruct (store_entries_is_Some None (e :: es)) as [d Hd]; [done|]. congruence.
Qed.

Lemma entries_for_cons (self : Tuffy) (has_value : bool) (key : option nat)
    (l : string) (lines : list string) :
  entries_for self has_value key (l :: lines) =
  (if bool_decide (Str.strip l = EmptyString) then []
   else if bool_decide (result_key self l = key)
        then match result_value has_value l with
             | Ok v => [(result_args l, v)]
             | Raise _ => []
             end
        else [])
  ++ entries_for self has_value key lines.
Proof.
  unfold entries_for. cbn [omap list_omap].
  destruct (bool_decide (Str.strip l = EmptyString)); [done|].
  destruct (bool_decide (result_key self l = key)); [|done].
  by destruct (result_value has_value l).
Qed.

(** The loop over the lines: what is found under a key afterwards comes
    from the lines of that key alone; the loop raises only where the value
    of a line cannot be read. *)
Lemma read_results_lines_spec (self : Tuffy) (has_value : bool)
    (lines : list string)
    (results : gmap (option nat) (gmap (list string) float)) :
  match read_results_lines self has_value results lines with
  | Ok raw =>
      (∀ key, raw !! key =
              store_entries (results !! key) (entries_for self has_value key lines))
      ∧ (∀ line, line ∈ lines → Str.strip line ≠ EmptyString →
                 ∃ v, result_value has_value line = Ok v)
  | Raise e =>
      ∃ line, line ∈ lines ∧ Str.strip line ≠ EmptyString ∧
              result_value has_value line = Raise e
  end.
Proof.
  revert results. induction lines as [|line lines IH]; intros results.
  - simpl. split; [done|]. intros line Hin. by apply elem_of_nil in Hin.
  - cbn [read_results_lines]. rewrite read_results_line_step.
    case_bool_decide as Hblank.
    + cbn [mbind result_bind]. specialize (IH results).
      destruct (read_results_lines _ _ results lines) as [raw|e].
      * destruct IH as [Hkeys Hvals]. split.
        -- intros key. rewrite entries_for_cons, bool_decide_eq_true_2 by done.
           apply Hkeys.
        -- intros l [->|Hin]%elem_of_cons; [done | by apply Hvals].
      * destruct IH as (l & Hl & ?). exists l. split; [by right | done].
    + destruct (result_value has_value line) as [v|e] eqn:Hv; cbn [mbind result_bind].
      * set (results' := <[result_key self line := _]> results).
        specialize (IH results').
        destruct (read_results_lines _ _ results' lines) as [raw|e].
        -- destruct IH as [Hkeys Hvals]. split.
           ++ intros key. rewrite Hkeys, entries_for_cons.
              rewrite bool_decide_eq_false_2, Hv by done. subst results'.
              case_bool_decide as Hkey.
              ** subst key. by rewrite lookup_insert_eq.
              ** by rewrite lookup_insert_ne.
           ++ intros l [->|Hin]%elem_of_cons; [eauto | by apply Hvals].
        -- destruct IH as (l & Hl & ?). exists l. split; [by right | done].
      * exists line. split; [by left | done].
Qed.

Lemma read_results_default (self : Tuffy) (lines : list string) :
  ∃ raw, _read_results self lines false = Ok raw ∧
    ∀ key, raw !! key = store_entries None (entries_for self false key lines).
Proof.
  pose proof (read_results_lines_spec self false lines ∅) as Hspec.
  unfold _read_results.
  destruct (read_results_lines self false ∅ lines) as [raw|e].
  - exists raw. split; [done|]. intros key. destruct Hspec as [-> _].
    by rewrite lookup_empty.
  - by destruct Hspec as (line & _ & _ & ?).
Qed.

Lemma entries_for_nil (self : Tuffy) (has_value : bool) (key : option nat)
    (lines : list string) :
  entries_for self has_value key lines = [] ↔
  ∀ line, line ∈ lines → Str.strip line ≠ EmptyString →
          result_key self line = key →
          ∃ e, result_value has_value line = Raise e.
Proof.
  induction lines as [|l lines IH].
  - split; [|done]. intros _ line Hin. by apply elem_of_nil in Hin.
  - rewrite entries_for_cons. split.
    + intros [Hl Hnil]%app_eq_nil line Hin Hblank Hkey.
      apply elem_of_cons in Hin as [->|Hin]; [|by apply IH].
      rewrite bool_decide_eq_false_2, bool_decide_eq_true_2 in Hl by done.
      destruct (result_value has_value l); [done | eauto].
    + intros Hall.
      assert (entries_for self has_value key lines = []) as ->.
      { apply IH. intros line Hin. apply Hall. by right. }
      rewrite app_nil_r.
      case_bool_decide as Hblank; [done|]. case_bool_decide as Hkey; [|done].
      destruct (Hall l) as [e ->]; [by left | done.. ].
Qed.

End result_parser.

(** C6, as amended: an atom whose predicate matches no relation does not
    make the result parser raise (in the mode [solve] uses it never raises,
    and with a value column it raises only where a value cannot be read),
    and what is recorded for a relation comes from the atoms of that relation
    alone, so unmatched atoms leave it as it is.  The unmatched atoms are
    not dropped: they are recorded, all together, under the key [None]. *)
Theorem read_results_unmatched `{PyFloat} (self : Tuffy) (lines : list string) :
  (∃ raw, _read_results self lines false = Ok raw)
  ∧ (∀ has_value,
       match _read_results self lines has_value with
       | Ok raw =>
           (∀ key, raw !! key =
                   store_entries None (entries_for self has_value key lines))
           ∧ (raw !! None = None ↔
              ∀ line, line ∈ lines → Str.strip line ≠ EmptyString →
                      result_key self line ≠ None)
       | Raise e =>
           ∃ line, line ∈ lines ∧ Str.strip line ≠ EmptyString ∧
                   result_value has_value line = Raise e
       end).
Proof.
  split.
  { destruct (read_results_default self lines) as (raw & Hraw & _). eauto. }
  intros has_value.
  pose proof (read_results_lines_spec self has_value lines ∅) as Hspec.
  unfold _read_results.
  destruct (read_results_lines self has_value ∅ lines) as [raw|e]; [|done].
  destruct Hspec as [Hkeys Hvals].
  assert (∀ key, raw !! key =
                 store_entries None (entries_for self has_value key lines)) as Hraw.
  { intros key. by rewrite Hkeys, lookup_empty. }
  split; [done|]. rewrite Hraw, store_entries_None_nil, entries_for_nil.
  split.
  - intros Hall line Hin Hblank Hkey.
    destruct (Hall line Hin Hblank Hkey) as [e He].
    destruct (Hvals line Hin Hblank) as [v Hv]. congruence.
  - intros Hall line Hin Hblank Hkey. by destruct (Hall line Hin Hblank).
Qed.

(** C6 fails as stated: the atom of the unknown predicate [Other] is
    recorded in the result, under the key [None]. *)
Lemma unmatched_atom_recorded :
  ∃ raw,
    _read_results (engine (H := Micro.micro)) ["Friends(a, b)"; "Other(x)"] false = Ok raw
    ∧ raw !! None = Some {[ ["x"] := 1000000%Z ]}
    ∧ raw !! Some 0%nat = Some {[ ["a"; "b"] := 1000000%Z ]}.
Proof. eexists. split; [reflexivity|]. split; reflexivity. Defined.

Section solve_loop.
Context `{PyFloat}.

Lemma solve_rows_found raw i arity rows d :
  raw !! Some i = Some d →
  solve_rows raw i arity rows = Ok (solved_row d arity <$> rows).
Proof.
  intros Hd. induction rows as [|r rows IH]; [done|].
  cbn [solve_rows]. rewrite Hd, IH. cbn [mbind result_bind fmap list_fmap].
  unfold solved_row at 2. by destruct (d !! take arity r).
Qed.

Lemma solve_rows_missing raw i arity rows :
  raw !! Some i = None → rows ≠ [] →
  solve_rows raw i arity rows = Raise KeyError.
Proof. intros Hd Hne. destruct rows; [done|]. cbn [solve_rows]. by rewrite Hd. Qed.

Lemma has_unobserved_data_true (rel : Relation.t) :
  Relation.has_unobserved_data rel = true ↔ Relation.get_unobserved_data rel ≠ [].
Proof.
  unfold Relation.has_unobserved_data. case_bool_decide; simpl; naive_solver.
Qed.

(** Once a relation with query rows has no dict, the loop ends in KeyError,
    whatever the relations before it are. *)
Lemma solve_relations_missing raw (rels : list Relation.t) i0 results j rel :
  rels !! j = Some rel →
  Relation.has_unobserved_data rel = true →
  raw !! Some (i0 + j)%nat = None →
  solve_relations raw i0 rels results = Raise KeyError.
Proof.
  revert i0 results j. induction rels as [|r rels IH]; intros i0 results j Hj Hu Hraw;
    [done|].
  cbn [solve_relations]. destruct j as [|j].
  - injection Hj as ->. rewrite Hu. cbn [negb].
    rewrite Nat.add_0_r in Hraw.
    rewrite solve_rows_missing; [done | done | by apply has_unobserved_data_true].
  - cbn in Hj. replace (i0 + S j)%nat with (S i0 + j)%nat in Hraw by lia.
    destruct (negb (Relation.has_unobserved_data r)); [by eapply IH|].
    destruct (solve_rows raw i0 _ _) as [rows|e] eqn:Hrows.
    + cbn [mbind result_bind]. by eapply IH.
    + destruct (raw !! Some i0) as [d|] eqn:Hd.
      * by rewrite (solve_rows_found _ _ _ _ d) in Hrows.
      * destruct (Relation.get_unobserved_data r); [done|].
        cbn [solve_rows] in Hrows. rewrite Hd in Hrows. by injection Hrows as <-.
Qed.

Lemma solve_relations_found raw (rels : list Relation.t) i0 results :
  (∀ j rel, rels !! j = Some rel → Relation.has_unobserved_data rel = true →
            is_Some (raw !! Some (i0 + j)%nat)) →
  ∃ out, solve_relations raw i0 rels results = Ok out ∧
    ∀ k, out !! k =
      match (if bool_decide (i0 ≤ k)%nat then rels !! (k - i0)%nat else None) with
      | Some rel =>
          if Relation.has_unobserved_data rel
          then (fun d => solved_row d (Relation.arity rel) <$>
                           Relation.get_unobserved_data rel) <$> raw !! Some k
          else results !! k
      | None => results !! k
      end.
Proof.
  revert i0 results. induction rels as [|r rels IH]; intros i0 results Hall.
  - exists results. split; [done|]. intros k. by case_bool_decide.
  - cbn [solve_relations].
    assert (∀ j rel, rels !! j = Some rel → Relation.has_unobserved_data rel = true →
                     is_Some (raw !! Some (S i0 + j)%nat)) as Hall'.
    { intros j rel Hj Hu. replace (S i0 + j)%nat with (i0 + S j)%nat by lia.
      by apply (Hall (S j) rel). }
    destruct (Relation.has_unobserved_data r) eqn:Hu; cbn [negb].
    + destruct (Hall 0%nat r eq_refl Hu) as [d Hd]. rewrite Nat.add_0_r in Hd.
      rewrite (solve_rows_found _ _ _ _ d Hd). cbn [mbind result_bind].
      destruct (IH (S i0) (<[i0 := solved_row d (Relation.arity r) <$>
                                     Relation.get_unobserved_data r]> results) Hall')
        as (out & Hout & Hk).
      exists out. split; [done|]. intros k. rewrite Hk.
      destruct (decide (k = i0)) as [->|Hne].
      * rewrite bool_decide_eq_false_2 by lia. rewrite bool_decide_eq_true_2 by lia.
        rewrite Nat.sub_diag. cbn. rewrite Hu, Hd. cbn. by rewrite lookup_insert_eq.
      * repeat case_bool_decide; try lia.
        -- replace (k - i0)%nat with (S (k - S i0)) by lia. cbn.
           destruct (rels !! (k - S i0)%nat) as [rel|]; [|by rewrite lookup_insert_ne].
           destruct (Relation.has_unobserved_data rel); [done|].
           by rewrite lookup_insert_ne.
        -- by rewrite lookup_insert_ne.
    + destruct (IH (S i0) results Hall') as (out & Hout & Hk).
      exists out. split; [done|]. intros k. rewrite Hk.
      destruct (decide (k = i0)) as [->|Hne].
      * rewrite bool_decide_eq_false_2 by lia. rewrite bool_decide_eq_true_2 by lia.
        rewrite Nat.sub_diag. cbn. by rewrite Hu.
      * repeat case_bool_decide; try lia; [|done].
        replace (k - i0)%nat with (S (k - S i0)) by lia. done.
Qed.

(** [solve] ends in KeyError as soon as one relation with query rows has
    no atom in the output. *)
Lemma solve_KeyError (self : Tuffy) (output : list string) j rel :
  _relations self !! j = Some rel →
  Relation.has_unobserved_data rel = true →
  entries_for self false (Some j) output = [] →
  solve self output = Raise KeyError.
Proof.
  intros Hj Hu Hnil. unfold solve.
  destruct (read_results_default self output) as (raw & -> & Hraw).
  cbn [mbind result_bind].
  eapply (solve_relations_missing raw _ 0 ∅ j rel); [done | done |].
  cbn. by rewrite Hraw, Hnil.
Qed.

End solve_loop.

(** C1, where the code departs from it: with query rows for [Friends] and
    an engine output that holds no atom of [Friends] (an empty one, or one
    with atoms of other relations only), [solve] raises KeyError instead of
    returning the rows with 0.0. *)
Theorem solve_without_atom_raises `{PyFloat} :
  Relation.get_unobserved_data friends = [["a"; "b"]; ["b"; "c"]]
  ∧ solve engine [] = Raise KeyError
  ∧ solve engine ["Smokes(x)"; "Other(a, b)"] = Raise KeyError.
Proof.
  split; [reflexivity|]. split.
  - by apply (solve_KeyError engine [] 0 friends).
  - by apply (solve_KeyError engine ["Smokes(x)"; "Other(a, b)"] 0 friends).
Qed.

(** ** The weight parser *)

Section weight_parser.
Context `{PyFloat}.

(** *** The relation map *)




(** *** One line *)





End weight_parser.






(** *** The index of a rule line *)













(** *** All the lines, and learn *)

Section tagged_lines.
Context `{PyFloat}.







(** [learn] applies slot [i] to rule [i]. *)
Lemma apply_weights_zip (i : nat) (weights : list slot) (rules : list Rule.t) :
  (i + length rules ≤ length weights)%nat →
  apply_weights i weights rules =
  Ok (zip_with (fun r w => Rule.set_weight w r) rules (drop i weights)).
Proof.
  revert i. induction rules as [|r rules IH]; intros i Hlen; [done|].
  cbn [apply_weights]. cbn in Hlen.
  destruct (weights !! i) as [w|] eqn:Hw.
  - rewrite IH by lia. cbn [mbind result_bind].
    by rewrite (drop_S _ _ _ Hw).
  - apply lookup_ge_None in Hw. lia.
Qed.

Lemma skip_until_marker rmap (st : weights_state) (pre : list string) rest :
  ws_skip st = true →
  Forall (fun l => Str.contains MARKER l = false) pre →
  parse_weights_lines rmap st (pre ++ rest) = parse_weights_lines rmap st rest.
Proof.
  intros Hskip. induction pre as [|l pre IH]; intros Hall; [done|].
  apply Forall_cons in Hall as [Hl Hall]. cbn [app parse_weights_lines].
  unfold parse_weights_line. rewrite Hl, Hskip. cbn [mbind result_bind].
  by apply IH.
Qed.

End tagged_lines.



(** ** Further properties *)


Section solve_result.
Context `{PyFloat}.

Lemma solve_relations_raise raw (rels : list Relation.t) i0 results e :
  solve_relations raw i0 rels results = Raise e →
  e = KeyError ∧
  ∃ j rel, rels !! j = Some rel ∧ Relation.has_unobserved_data rel = true ∧
           raw !! Some (i0 + j)%nat = None.
Proof.
  revert i0 results. induction rels as [|r rels IH]; intros i0 results Hs; [done|].
  cbn [solve_relations] in Hs.
  assert (∀ res, solve_relations raw (S i0) rels res = Raise e →
            e = KeyError ∧
            ∃ j rel, (r :: rels) !! j = Some rel ∧
                     Relation.has_unobserved_data rel = true ∧
                     raw !! Some (i0 + j)%nat = None) as Hrest.
  { intros res Hres. apply IH in Hres as (-> & j & rel & Hj & Hu & Hraw).
    split; [done|]. exists (S j), rel. split; [done|]. split; [done|].
    by replace (i0 + S j)%nat with (S i0 + j)%nat by lia. }
  destruct (Relation.has_unobserved_data r) eqn:Hu; cbn [negb] in Hs; [|by eapply Hrest].
  destruct (raw !! Some i0) as [d|] eqn:Hd.
  - rewrite (solve_rows_found _ _ _ _ d Hd) in Hs. cbn [mbind result_bind] in Hs.
    by eapply Hrest.
  - rewrite solve_rows_missing in Hs; [|done | by apply has_unobserved_data_true].
    injection Hs as <-. split; [done|]. exists 0%nat, r.
    by rewrite Nat.add_0_r.
Qed.

End solve_result.

(** X2.  What [solve] returns: if every relation with query rows has an atom
    in the output, the result holds, for each such relation and no other, one
    row per query row, the first [arity] columns followed by the value the
    output gave that key or by 0.0; otherwise [solve] raises KeyError, and
    some relation with query rows has no atom in the output. *)
Theorem solve_result `{PyFloat} (self : Tuffy) (output : list string) :
  match solve self output with
  | Ok results =>
      ∀ j rel, _relations self !! j = Some rel →
        if Relation.has_unobserved_data rel
        then ∃ d, store_entries None (entries_for self false (Some j) output) = Some d
                  ∧ results !! j =
                      Some ((fun r => (take (Relation.arity rel) r,
                                       default f_zero (d !! take (Relation.arity rel) r)))
                              <$> Relation.get_unobserved_data rel)
        else results !! j = None
  | Raise e =>
      e = KeyError ∧
      ∃ j rel, _relations self !! j = Some rel ∧
               Relation.has_unobserved_data rel = true ∧
               entries_for self false (Some j) output = []
  end.
Proof.
  unfold solve.
  destruct (read_results_default self output) as (raw & -> & Hraw).
  cbn [mbind result_bind].
  destruct (solve_relations raw 0 (_relations self) ∅) as [results|e] eqn:Hs.
  - assert (∀ j rel, _relations self !! j = Some rel →
                     Relation.has_unobserved_data rel = true →
                     is_Some (raw !! Some (0 + j)%nat)) as Hall.
    { intros j rel Hj Hu. destruct (raw !! Some (0 + j)%nat) eqn:Hd; [eauto|].
      by rewrite (solve_relations_missing raw _ 0 ∅ j rel Hj Hu Hd) in Hs. }
    destruct (solve_relations_found raw (_relations self) 0 ∅ Hall) as (out & Hout & Hk).
    rewrite Hs in Hout. injection Hout as <-.
    intros j rel Hj. specialize (Hk j).
    rewrite bool_decide_eq_true_2, Nat.sub_0_r, Hj in Hk by lia.
    destruct (Relation.has_unobserved_data rel) eqn:Hu; [|exact Hk].
    destruct (Hall j rel Hj Hu) as [d Hd]. cbn in Hd. exists d.
    split; [by rewrite <- Hraw|]. rewrite Hd in Hk. exact Hk.
  - apply solve_relations_raise in Hs as (-> & j & rel & Hj & Hu & Hd).
    split; [done|]. exists j, rel. split; [done|]. split; [done|].
    cbn in Hd. rewrite Hraw in Hd. by apply store_entries_None_nil.
Qed.


(** Spaces on the way out and back: the query file names the row of [city]
    as [City(New_York)], while [solve] looks the row up under the key it has
    in the relation, [New York]; an output atom that names the row as the
    query file does is not found, and the row is returned with 0.0. *)
Theorem space_key_not_found `{PyFloat} :
  _write_query (mkTuffy _ [city] []) = ["City(New_York)"]
  ∧ ∃ results,
      solve (mkTuffy _ [city] []) ["City(New_York)"] = Ok results
      ∧ results !! 0%nat = Some [(["New York"], f_zero)].
Proof. split; [reflexivity|]. eexists. split; reflexivity. Qed.

(** X5.  Lines before the marker are ignored, whatever they are; without a
    marker line every slot keeps the initial [False]. *)
Theorem lines_before_marker_ignored `{PyFloat} (self : Tuffy)
    (pre rest : list string) (marker : string) :
  (Forall (fun l => Str.contains MARKER l = false) pre →
   _parse_weights self pre =
     Ok (replicate (length (_rules self)) SFalse, _relations self))
  ∧ (Forall (fun l => Str.contains MARKER l = false) pre →
     Str.contains MARKER marker = true →
     _parse_weights self (pre ++ marker :: rest) =
     _parse_weights self (marker :: rest)).
Proof.
  split.
  - intros Hpre. unfold _parse_weights.
    rewrite <- (app_nil_r pre), skip_until_marker by done. done.
  - intros Hpre Hmarker. unfold _parse_weights. by rewrite skip_until_marker.
Qed.

(** ** The patterns: every text of the shape is matched *)

Lemma rep_complete g p k need pos c rest :
  all_chars p c = true → (need ≤ Str.len c)%nat →
  is_Some (k (pos + Str.len c)%nat rest) →
  is_Some (Re.rep g p k need pos (c +:+ rest)).
Proof.
  revert need pos. induction c as [|a c IH]; intros need pos Hall Hneed Hk.
  - cbn in Hneed. assert (need = 0%nat) as -> by lia.
    rewrite app_empty_l. cbn [Str.len String.length] in Hk.
    rewrite Nat.add_0_r in Hk.
    destruct rest as [|b rest]; [done|]. cbn [Re.rep].
    destruct (p b); [|done].
    destruct g.
    + by destruct (Re.rep true p k (pred 0) (S pos) rest).
    + destruct Hk as [r Hr]. by rewrite Hr.
  - cbn [all_chars] in Hall. apply andb_true_iff in Hall as [Ha Hall].
    rewrite app_cons. cbn [Re.rep]. rewrite Ha.
    cbn [Str.len String.length] in Hneed, Hk.
    assert (is_Some (Re.rep g p k (pred need) (S pos) (c +:+ rest))) as [r Hr].
    { apply IH; [done|unfold Str.len in *; lia|].
      unfold Str.len in *.
      by replace (S pos + String.length c)%nat with (pos + S (String.length c))%nat by lia. }
    rewrite Hr. destruct g; [done|].
    by destruct need; [destruct (k pos _)|].
Qed.

Lemma exec_complete r k pos c rest caps caps' :
  matches r pos c rest caps' →
  is_Some (k (pos + Str.len c)%nat rest (caps ++ caps')) →
  is_Some (Re.exec r k pos (c +:+ rest) caps).
Proof.
  revert k pos c rest caps caps'.
  induction r as [| |l|x|g n p|r1 IH1|r1 IH1 r2 IH2]; intros k pos c rest caps caps' Hm Hk;
    cbn [matches] in Hm; cbn [Re.exec].
  - destruct Hm as (-> & -> & ->). rewrite app_empty_l.
    by rewrite app_nil_r in Hk.
  - destruct Hm as (Hend & -> & ->). rewrite app_empty_l, Hend.
    cbn [Str.len String.length] in Hk.
    by rewrite Nat.add_0_r, app_nil_r in Hk.
  - destruct Hm as [-> ->]. rewrite startswith_app, drop_app_len.
    by rewrite app_nil_r in Hk.
  - destruct Hm as [[->| ->] ->]; rewrite app_nil_r in Hk.
    + rewrite app_empty_l. cbn [Str.len String.length] in Hk.
      rewrite Nat.add_0_r in Hk.
      destruct rest as [|a rest]; [done|].
      destruct (ascii_dec a x); [|done].
      by destruct (k (S pos) rest caps).
    + rewrite app_cons, app_empty_l.
      destruct (ascii_dec x x); [|done].
      cbn [Str.len String.length] in Hk.
      replace (pos + 1)%nat with (S pos) in Hk by lia.
      destruct Hk as [r Hr]. by rewrite Hr.
  - destruct Hm as (Hall & Hn & ->). rewrite app_nil_r in Hk.
    by apply rep_complete.
  - destruct Hm as (caps1 & Hm & ->).
    eapply IH1; [exact Hm|].
    replace (pos + Str.len c - pos)%nat with (Str.len c) by lia.
    by rewrite take_app_len, <- (assoc_L (++)).
  - destruct Hm as (c1 & c2 & caps1 & caps2 & -> & Hm1 & Hm2 & ->).
    rewrite app_assoc_str.
    eapply IH1; [exact Hm1|].
    eapply IH2; [exact Hm2|].
    by rewrite len_app, Nat.add_assoc, (assoc_L (++)) in Hk.
Qed.

Lemma search_from_complete r pre pos c rest caps :
  matches r (pos + Str.len pre) c rest caps →
  is_Some (Re.search_from r pos (pre +:+ c +:+ rest)).
Proof.
  revert pos. induction pre as [|a pre IH]; intros pos Hm.
  - rewrite app_empty_l. cbn [Str.len String.length] in Hm.
    rewrite Nat.add_0_r in Hm.
    assert (is_Some (Re.match_at r pos (c +:+ rest))) as [m Hmm].
    { unfold Re.match_at. by eapply exec_complete. }
    destruct (c +:+ rest); cbn [Re.search_from]; by rewrite Hmm.
  - rewrite app_cons. cbn [Re.search_from].
    destruct (Re.match_at r pos _); [done|].
    apply IH. by replace (S pos + Str.len pre)%nat
      with (pos + Str.len (String a pre))%nat by (cbn [Str.len String.length]; lia).
Qed.

Lemma search_complete r pre c rest caps :
  matches r (Str.len pre) c rest caps →
  is_Some (Re.search r (pre +:+ c +:+ rest)).
Proof.
  intros Hm. unfold Re.search.
  destruct (search_from_complete r pre 0 c rest caps Hm) as [m ->]. done.
Qed.

Lemma matches_cat_cons r l pos c c1 c2 rest caps caps1 caps2 :
  matches r pos c1 (c2 +:+ rest) caps1 →
  c = c1 +:+ c2 →
  matches (Re.cat l) (pos + Str.len c1) c2 rest caps2 →
  caps = caps1 ++ caps2 →
  matches (Re.cat (r :: l)) pos c rest caps.
Proof. intros H1 -> H2 ->. cbn [Re.cat foldr matches]. by exists c1, c2, caps1, caps2. Qed.

Lemma matches_cat_one r pos c rest caps :
  matches r pos c rest caps → matches (Re.cat [r]) pos c rest caps.
Proof.
  intros Hm. cbn [Re.cat foldr matches]. exists c, EmptyString, caps, [].
  by rewrite app_empty_r, app_empty_l, app_nil_r.
Qed.

Lemma matches_run g p pos c rest :
  run_of p c → matches (Re.Rep g 1 p) pos c rest [].
Proof.
  intros [Hall Hne]. cbn [matches]. split; [done|]. split; [|done].
  destruct c; [done|]. cbn. lia.
Qed.

Lemma matches_grp r pos c rest caps :
  matches r pos c rest caps → matches (Re.Grp r) pos c rest (caps ++ [c]).
Proof. intros Hm. cbn [matches]. by exists caps. Qed.

Lemma float_re_matches pos w rest :
  float_literal w → matches float_re pos w rest [].
Proof.
  intros (sign & d1 & d2 & -> & Hsign & Hd1 & Hd2). unfold float_re.
  eapply (matches_cat_cons _ _ _ _ sign); [by cbn [matches]|reflexivity| |reflexivity].
  eapply (matches_cat_cons _ _ _ _ d1); [by apply matches_run|reflexivity| |reflexivity].
  eapply (matches_cat_cons _ _ _ _ "."); [by cbn [matches]|reflexivity| |reflexivity].
  apply matches_cat_one. by apply matches_run.
Qed.

Lemma index_re_matches pos ds rest :
  run_of Str.is_digit ds →
  matches index_re pos ("//" +:+ ds +:+ ".0") rest [ds +:+ ".0"].
Proof.
  intros Hds. unfold index_re.
  eapply (matches_cat_cons _ _ _ _ "//"); [by cbn [matches]|reflexivity| |reflexivity].
  apply matches_cat_one. apply (matches_grp _ _ _ _ []).
  eapply (matches_cat_cons _ _ _ _ ds); [by apply matches_run|reflexivity| |reflexivity].
  by apply matches_cat_one.
Qed.

Lemma at_end_of_line_end nl : line_end nl → Re.at_end nl = true.
Proof. by intros [-> | ->]. Qed.

Lemma matches_eol pos nl : line_end nl → matches (Re.cat [Re.Eol]) pos EmptyString nl [].
Proof.
  intros Hnl. apply matches_cat_one. cbn [matches]. by rewrite at_end_of_line_end.
Qed.

Lemma soft_re_matches w sp1 body sp2 ds nl :
  float_literal w → run_of Str.is_space sp1 → run_of Re.any body →
  run_of Str.is_space sp2 → run_of Str.is_digit ds → line_end nl →
  matches soft_re 0
    (w +:+ sp1 +:+ body +:+ sp2 +:+ ("//" +:+ ds +:+ ".0") +:+ EmptyString) nl
    [w; ds +:+ ".0"].
Proof.
  intros Hw Hsp1 Hbody Hsp2 Hds Hnl. unfold soft_re.
  eapply (matches_cat_cons _ _ _ _ EmptyString); [by cbn [matches]|reflexivity| |reflexivity].
  eapply (matches_cat_cons _ _ _ _ w);
    [apply matches_grp; by apply float_re_matches|reflexivity| |reflexivity].
  eapply (matches_cat_cons _ _ _ _ sp1); [by apply matches_run|reflexivity| |reflexivity].
  eapply (matches_cat_cons _ _ _ _ body); [by apply matches_run|reflexivity| |reflexivity].
  eapply (matches_cat_cons _ _ _ _ sp2); [by apply matches_run|reflexivity| |reflexivity].
  eapply (matches_cat_cons _ _ _ _ ("//" +:+ ds +:+ ".0"));
    [by apply index_re_matches|reflexivity| |reflexivity].
  by apply matches_eol.
Qed.

Lemma prior_re_matches w sp1 name args sp2 ds nl :
  float_literal w → run_of Str.is_space sp1 → run_of Str.is_word name →
  run_of (Re.isnt ")") args → run_of Str.is_space sp2 → run_of Str.is_digit ds →
  line_end nl →
  matches prior_re 0
    (w +:+ sp1 +:+ "!" +:+ name +:+ "(" +:+ args +:+ ")" +:+ sp2 +:+
     ("//" +:+ ds +:+ ".0") +:+ EmptyString) nl
    [w; name; ds +:+ ".0"].
Proof.
  intros Hw Hsp1 Hname Hargs Hsp2 Hds Hnl. unfold prior_re.
  eapply (matches_cat_cons _ _ _ _ EmptyString); [by cbn [matches]|reflexivity| |reflexivity].
  eapply (matches_cat_cons _ _ _ _ w);
    [apply matches_grp; by apply float_re_matches|reflexivity| |reflexivity].
  eapply (matches_cat_cons _ _ _ _ sp1); [by apply matches_run|reflexivity| |reflexivity].
  eapply (matches_cat_cons _ _ _ _ "!"); [by cbn [matches]|reflexivity| |reflexivity].
  eapply (matches_cat_cons _ _ _ _ name);
    [apply (matches_grp _ _ _ _ []); by apply matches_run|reflexivity| |reflexivity].
  eapply (matches_cat_cons _ _ _ _ "("); [by cbn [matches]|reflexivity| |reflexivity].
  eapply (matches_cat_cons _ _ _ _ args); [by apply matches_run|reflexivity| |reflexivity].
  eapply (matches_cat_cons _ _ _ _ ")"); [by cbn [matches]|reflexivity| |reflexivity].
  eapply (matches_cat_cons _ _ _ _ sp2); [by apply matches_run|reflexivity| |reflexivity].
  eapply (matches_cat_cons _ _ _ _ ("//" +:+ ds +:+ ".0"));
    [by apply index_re_matches|reflexivity| |reflexivity].
  by apply matches_eol.
Qed.

Lemma hard_re_matches pos ds nl :
  run_of Str.is_digit ds → line_end nl →
  matches hard_re pos
    (" . " +:+ ("//" +:+ ds +:+ ".0") +:+ "hardfixed" +:+ EmptyString) nl
    [ds +:+ ".0"].
Proof.
  intros Hds Hnl. unfold hard_re.
  eapply (matches_cat_cons _ _ _ _ " . "); [by cbn [matches]|reflexivity| |reflexivity].
  eapply (matches_cat_cons _ _ _ _ ("//" +:+ ds +:+ ".0"));
    [by apply index_re_matches|reflexivity| |reflexivity].
  eapply (matches_cat_cons _ _ _ _ "hardfixed"); [by cbn [matches]|reflexivity| |reflexivity].
  by apply matches_eol.
Qed.

Lemma all_chars_app p a b : all_chars p (a +:+ b) = all_chars p a && all_chars p b.
Proof.
  induction a as [|c a IH]; [done|].
  rewrite app_cons. cbn [all_chars]. by rewrite IH, andb_assoc.
Qed.

Lemma all_chars_impl (p q : ascii → bool) s :
  (∀ c, p c = true → q c = true) → all_chars p s = true → all_chars q s = true.
Proof.
  intros Hpq. induction s as [|c s IH]; [done|]. cbn [all_chars].
  rewrite !andb_true_iff. intros [Hc Hs]. auto.
Qed.

(** A run of one class followed by a character outside the class is
    determined by the text. *)
Lemma run_prefix_unique (p : ascii → bool) a a' x x' r r' :
  all_chars p a = true → all_chars p a' = true → p x = false → p x' = false →
  a +:+ String x r = a' +:+ String x' r' → a = a' ∧ String x r = String x' r'.
Proof.
  revert a'. induction a as [|c a IH]; intros [|c' a'] Ha Ha' Hx Hx';
    rewrite ?app_cons, ?app_empty_l; cbn [all_chars] in Ha, Ha'.
  - done.
  - intros [= -> _]. apply andb_true_iff in Ha' as [Hc _]. congruence.
  - intros [= <- _]. apply andb_true_iff in Ha as [Hc _]. congruence.
  - intros [= -> Heq].
    apply andb_true_iff in Ha as [_ Ha]. apply andb_true_iff in Ha' as [_ Ha'].
    destruct (IH a' Ha Ha' Hx Hx' Heq) as [-> ?]. done.
Qed.

(** The last [//] of a text is determined by what follows it. *)
Lemma last_slashes_unique A A' T T' :
  all_chars (Re.isnt "/") T = true → all_chars (Re.isnt "/") T' = true →
  A +:+ "//" +:+ T = A' +:+ "//" +:+ T' → A = A' ∧ T = T'.
Proof.
  intros HT HT'.
  change ("//" +:+ T) with (String "/" (String "/" T)).
  change ("//" +:+ T') with (String "/" (String "/" T')).
  revert A'. induction A as [|c A IH]; intros [|c' A'];
    rewrite ?app_cons, ?app_empty_l.
  - intros Heq. split; [done|]. by injection Heq.
  - intros [= <- Heq]. exfalso. destruct A' as [|c'' A'].
    + rewrite app_empty_l in Heq. injection Heq as ->. by cbn in HT.
    + rewrite app_cons in Heq. injection Heq as <- ->.
      rewrite all_chars_app in HT. by rewrite andb_comm in HT.
  - intros [= -> Heq]. exfalso. destruct A as [|c'' A].
    + rewrite app_empty_l in Heq. injection Heq as <-. by cbn in HT'.
    + rewrite app_cons in Heq. injection Heq as -> <-.
      rewrite all_chars_app in HT'. by rewrite andb_comm in HT'.
  - intros [= -> Heq]. destruct (IH A' Heq) as [-> ->]. done.
Qed.

Lemma float_literal_no_space w :
  float_literal w → all_chars (fun c => negb (Str.is_space c)) w = true.
Proof.
  intros (sign & d1 & d2 & -> & Hsign & [Hd1 _] & [Hd2 _]).
  assert (∀ s, all_chars Str.is_digit s = true →
               all_chars (fun c => negb (Str.is_space c)) s = true) as Hdig.
  { intros s. apply all_chars_impl. intros c Hc.
    unfold Str.is_digit, Str.is_space, Str.in_range in *.
    apply andb_true_iff in Hc as [H1 H2].
    apply Nat.leb_le in H1, H2.
    apply negb_true_iff, orb_false_iff. split; apply andb_false_iff.
    - right. apply Nat.leb_gt. lia.
    - right. apply Nat.leb_gt. lia. }
  rewrite !all_chars_app, (Hdig _ Hd1), (Hdig _ Hd2).
  by destruct Hsign as [-> | ->].
Qed.

Lemma digits_no_slash s nl :
  all_chars Str.is_digit s = true → line_end nl →
  ∀ lit, all_chars (Re.isnt "/") lit = true →
  all_chars (Re.isnt "/") (s +:+ lit +:+ nl) = true.
Proof.
  intros Hs Hnl lit Hlit. rewrite !all_chars_app, Hlit.
  assert (all_chars (Re.isnt "/") nl = true) as ->
    by (destruct Hnl as [-> | ->]; reflexivity).
  assert (all_chars (Re.isnt "/") s = true) as ->; [|done].
  revert Hs. apply all_chars_impl.
  intros c Hc. unfold Str.is_digit, Str.in_range in Hc.
  apply andb_true_iff in Hc as [H1 H2]. apply Nat.leb_le in H1, H2.
  unfold Re.isnt. destruct (ascii_dec c "/") as [->|]; [|done]. vm_compute in H1. lia.
Qed.

Lemma run_cons p s : run_of p s → ∃ c r, s = String c r ∧ p c = true.
Proof.
  intros [Hall Hne]. destruct s as [|c r]; [done|]. exists c, r.
  cbn in Hall. by apply andb_true_iff in Hall as [-> _].
Qed.

Lemma digits_then_dot ds ds' T T' :
  run_of Str.is_digit ds → run_of Str.is_digit ds' →
  ds +:+ String "." T = ds' +:+ String "." T' → ds = ds' ∧ T = T'.
Proof.
  intros [Hd _] [Hd' _] Heq.
  destruct (run_prefix_unique Str.is_digit ds ds' "." "." T T') as [-> [= ->]]; done.
Qed.

Lemma soft_shape_matched w sp1 body sp2 ds nl :
  float_literal w → run_of Str.is_space sp1 → run_of Re.any body →
  run_of Str.is_space sp2 → run_of Str.is_digit ds → line_end nl →
  Re.search soft_re (w +:+ sp1 +:+ body +:+ sp2 +:+ "//" +:+ ds +:+ ".0" +:+ nl)
  = Some [w; ds +:+ ".0"].
Proof.
  intros Hw Hsp1 Hbody Hsp2 Hds Hnl.
  set (l := w +:+ _).
  assert (is_Some (Re.search soft_re l)) as [m Hm].
  { pose proof (soft_re_matches w sp1 body sp2 ds nl Hw Hsp1 Hbody Hsp2 Hds Hnl) as H.
    apply (search_complete _ EmptyString) in H.
    rewrite app_empty_l, app_empty_r, !app_assoc_str in H. exact H. }
  rewrite Hm.
  destruct (soft_match_shape l m Hm)
    as (w' & sp1' & body' & sp2' & ds' & nl' & Hl & -> & Hw' & Hsp1' & _ & _ & Hds' & Hnl').
  destruct (run_cons _ _ Hsp1) as (x & r & Hx & Hxs).
  destruct (run_cons _ _ Hsp1') as (x' & r' & Hx' & Hxs').
  assert (w' = w) as ->.
  { unfold l in Hl. rewrite Hx, Hx', !app_cons in Hl.
    symmetry.
    apply (run_prefix_unique (fun c => negb (Str.is_space c)) _ _ _ _ _ _
             (float_literal_no_space _ Hw) (float_literal_no_space _ Hw')) in Hl;
      [by destruct Hl|by rewrite Hxs|by rewrite Hxs']. }
  assert (ds' = ds) as ->; [|done].
  unfold l in Hl.
  rewrite <- !(app_assoc_str _ _ ("//" +:+ _)) in Hl.
  apply last_slashes_unique in Hl as [_ Hl];
    [|apply digits_no_slash; [apply Hds|done..]|apply digits_no_slash; [apply Hds'|done..]].
  symmetry. by destruct (digits_then_dot ds ds' _ _ Hds Hds' Hl).
Qed.

Lemma prior_shape_matched w sp1 name args sp2 ds nl :
  float_literal w → run_of Str.is_space sp1 → run_of Str.is_word name →
  run_of (Re.isnt ")") args → run_of Str.is_space sp2 → run_of Str.is_digit ds →
  line_end nl →
  Re.search prior_re
    (w +:+ sp1 +:+ "!" +:+ name +:+ "(" +:+ args +:+ ")" +:+ sp2 +:+
     "//" +:+ ds +:+ ".0" +:+ nl)
  = Some [w; name; ds +:+ ".0"].
Proof.
  intros Hw Hsp1 Hname Hargs Hsp2 Hds Hnl.
  set (l := w +:+ _).
  assert (is_Some (Re.search prior_re l)) as [m Hm].
  { pose proof (prior_re_matches w sp1 name args sp2 ds nl
                  Hw Hsp1 Hname Hargs Hsp2 Hds Hnl) as H.
    apply (search_complete _ EmptyString) in H.
    rewrite app_empty_l, app_empty_r, !app_assoc_str in H. exact H. }
  rewrite Hm.
  destruct (prior_match_shape l m Hm)
    as (w' & sp1' & name' & args' & sp2' & ds' & nl' & Hl & -> & Hw' & Hsp1' & Hname' &
        _ & _ & Hds' & Hnl').
  destruct (run_cons _ _ Hsp1) as (x & r & Hx & Hxs).
  destruct (run_cons _ _ Hsp1') as (x' & r' & Hx' & Hxs').
  pose proof Hl as Hl2. unfold l in Hl2.
  rewrite Hx, Hx', (app_cons x r), (app_cons x' r') in Hl2.
  apply (run_prefix_unique (fun c => negb (Str.is_space c)) _ _ _ _ _ _
           (float_literal_no_space _ Hw) (float_literal_no_space _ Hw')) in Hl2;
    [|by rewrite Hxs|by rewrite Hxs'].
  destruct Hl2 as [<- Hl2].
  rewrite <- (app_cons x r), <- (app_cons x' r'), <- Hx, <- Hx' in Hl2.
  change ("!" +:+ name' +:+ ?t) with (String "!" (name' +:+ t)) in Hl2.
  change ("!" +:+ name +:+ ?t) with (String "!" (name +:+ t)) in Hl2.
  apply (run_prefix_unique Str.is_space) in Hl2;
    [|apply Hsp1|apply Hsp1'|done|done].
  destruct Hl2 as [_ [= Hl2]].
  change ("(" +:+ args +:+ ?t) with (String "(" (args +:+ t)) in Hl2.
  change ("(" +:+ args' +:+ ?t) with (String "(" (args' +:+ t)) in Hl2.
  apply (run_prefix_unique Str.is_word) in Hl2;
    [|apply Hname|apply Hname'|done|done].
  destruct Hl2 as [<- _].
  assert (ds' = ds) as ->; [|done].
  unfold l in Hl.
  rewrite <- !(app_assoc_str _ _ ("//" +:+ _)) in Hl.
  apply last_slashes_unique in Hl as [_ Hl];
    [|apply digits_no_slash; [apply Hds|done..]|apply digits_no_slash; [apply Hds'|done..]].
  symmetry. by destruct (digits_then_dot ds ds' _ _ Hds Hds' Hl).
Qed.

Lemma hard_shape_matched pre ds nl :
  run_of Str.is_digit ds → line_end nl →
  Re.search hard_re (pre +:+ " . //" +:+ ds +:+ ".0hardfixed" +:+ nl)
  = Some [ds +:+ ".0"].
Proof.
  intros Hds Hnl.
  set (l := pre +:+ _).
  assert (is_Some (Re.search hard_re l)) as [m Hm].
  { pose proof (hard_re_matches (Str.len pre) ds nl Hds Hnl) as H.
    apply (search_complete _ pre) in H.
    rewrite app_empty_r, !app_assoc_str in H. exact H. }
  rewrite Hm.
  destruct (hard_match_shape l m Hm) as (pre' & ds' & nl' & Hl & -> & Hds' & Hnl').
  assert (ds' = ds) as ->; [|done].
  unfold l in Hl.
  change (" . //" +:+ ?t) with (" . " +:+ "//" +:+ t) in Hl.
  rewrite <- !(app_assoc_str _ " . " ("//" +:+ _)) in Hl.
  apply last_slashes_unique in Hl as [_ Hl];
    [|apply digits_no_slash; [apply Hds|done..]|apply digits_no_slash; [apply Hds'|done..]].
  symmetry. by destruct (digits_then_dot ds ds' _ _ Hds Hds' Hl).
Qed.

(** ** The index of a rule line, read from its text *)













Lemma prior_shape_search l m : prior_shape l m → Re.search prior_re l = Some m.
Proof.
  intros (w & sp1 & name & args & sp2 & ds & nl & -> & -> & Hw & Hs1 & Hn & Ha & Hs2 & Hd & Hnl).
  by apply prior_shape_matched.
Qed.

Lemma soft_shape_search l m : soft_shape l m → Re.search soft_re l = Some m.
Proof.
  intros (w & sp1 & body & sp2 & ds & nl & -> & -> & Hw & Hs1 & Hb & Hs2 & Hd & Hnl).
  by apply soft_shape_matched.
Qed.

Lemma hard_shape_search l m : hard_shape l m → Re.search hard_re l = Some m.
Proof.
  intros (pre & ds & nl & -> & -> & Hd & Hnl). by apply hard_shape_matched.
Qed.

(** X6.  The converse of the shapes: every text of one of the three shapes
    is matched by its pattern, and the groups captured are exactly the
    float, the relation name and the index comment of the text.  Together
    with the shapes of a match, each pattern matches the lines of its shape
    and no other. *)
Theorem shaped_lines_matched (l : string) (m : list string) :
  (prior_shape l m → Re.search prior_re l = Some m)
  ∧ (soft_shape l m → Re.search soft_re l = Some m)
  ∧ (hard_shape l m → Re.search hard_re l = Some m).
Proof.
  split; [apply prior_shape_search|].
  split; [apply soft_shape_search | apply hard_shape_search].
Qed.



(** ** Padding of the output lines *)









Lemma rstrip_by_idemp (p : ascii → bool) (s : string) :
  Str.rstrip_by p (Str.rstrip_by p s) = Str.rstrip_by p s.
Proof.
  induction s as [|c s IH]; [done|]. cbn [Str.rstrip_by].
  destruct (Str.rstrip_by p s) as [|d r] eqn:E.
  - destruct (p c) eqn:Hc; [done|]. cbn. by rewrite Hc.
  - cbn [Str.rstrip_by]. cbn [Str.rstrip_by] in IH.
    destruct (Str.rstrip_by p r) as [|d' r'] eqn:E'.
    + destruct (p d) eqn:Hd; [done|]. by injection IH as <-.
    + by injection IH as <-.
Qed.

Section padding.
Context `{PyFloat}.




End padding.



(** ** What learn keeps *)

Lemma setitem_length {A} (l l' : list A) (i : Z) (x : A) :
  setitem l i x = Ok l' → length l' = length l.
Proof.
  unfold setitem. repeat case_match; intros [= <-]; by rewrite length_insert.
Qed.

Section frame.
Context `{PyFloat}.

Lemma prior_set_trans (r1 r2 r3 : Relation.t) :
  prior_set r1 r2 → prior_set r2 r3 → prior_set r1 r3.
Proof.
  intros [-> | [w ->]] [-> | [w' ->]]; [by left|right; by exists w'|right; by exists w|].
  right. by exists w'.
Qed.

Lemma prior_set_alter (rels : list Relation.t) (w : float) (i : nat) :
  Forall2 prior_set rels (alter (Relation.set_negative_prior_weight w) i rels).
Proof.
  revert i. induction rels as [|r rels IH]; intros [|i]; cbn.
  - constructor.
  - constructor.
  - constructor; [right; by exists w|]. apply Forall2_same_length_lookup_2; [done|].
    intros j x y Hx Hy. left. congruence.
  - constructor; [by left|apply IH].
Qed.

Lemma Forall2_prior_set_refl (rels : list Relation.t) : Forall2 prior_set rels rels.
Proof. apply Forall_Forall2_diag, Forall_forall. intros r _. by left. Qed.

Lemma Forall2_prior_set_trans (a b c : list Relation.t) :
  Forall2 prior_set a b → Forall2 prior_set b c → Forall2 prior_set a c.
Proof.
  intros Hab. revert c. induction Hab as [|x y la lb Hxy _ IH]; intros c Hbc.
  - by inversion Hbc.
  - inversion Hbc as [|y' z lb' lc Hyz Hrest]; subst.
    constructor; [by eapply prior_set_trans|by apply IH].
Qed.

Lemma parse_weights_line_frame rmap (st st' : weights_state) (line : string) :
  parse_weights_line rmap st line = Ok st' →
  length (ws_new_weights st') = length (ws_new_weights st)
  ∧ Forall2 prior_set (ws_relations st) (ws_relations st').
Proof.
  unfold parse_weights_line.
  destruct (Str.contains MARKER line); [intros [= <-]; split; [done|apply Forall2_prior_set_refl]|].
  destruct (ws_skip st) eqn:Hskip; [intros [= <-]; split; [done|apply Forall2_prior_set_refl]|].
  case_bool_decide; [intros [= <-]; split; [done|apply Forall2_prior_set_refl]|].
  destruct (Re.search prior_re _) as [m|].
  { destruct (to_float _) as [w|]; [|done]. cbn [mbind result_bind].
    destruct (rmap !! _) as [i|]; [|done]. intros [= <-]. cbn.
    split; [done|apply prior_set_alter]. }
  destruct (Re.search soft_re _) as [m|].
  { destruct (to_float _) as [w|]; [|done]. cbn [mbind result_bind].
    destruct (int_of_float_text _) as [k|]; [|done]. cbn [mbind result_bind].
    destruct (setitem _ _ _) as [ws|] eqn:Hset; [|done]. intros [= <-]. cbn.
    split; [by eapply setitem_length|apply Forall2_prior_set_refl]. }
  destruct (Re.search hard_re _) as [m|]; [|done].
  destruct (int_of_float_text _) as [k|]; [|done]. cbn [mbind result_bind].
  destruct (setitem _ _ _) as [ws|] eqn:Hset; [|done]. intros [= <-]. cbn.
  split; [by eapply setitem_length|apply Forall2_prior_set_refl].
Qed.

Lemma parse_weights_line_raises rmap (st : weights_state) (line : string) (e : exn) :
  parse_weights_line rmap st line = Raise e →
  e = IndexError ∨ e = OverflowError ∨ ∃ msg, e = ValueError msg.
Proof.
  unfold parse_weights_line.
  destruct (Str.contains MARKER line); [done|].
  destruct (ws_skip st); [done|]. case_bool_decide; [done|].
  assert (∀ s (k : float → result weights_state),
            (∀ w, k w = Raise e → e = IndexError ∨ e = OverflowError ∨ ∃ msg, e = ValueError msg) →
            to_float s ≫= k = Raise e →
            e = IndexError ∨ e = OverflowError ∨ ∃ msg, e = ValueError msg) as Hfloat.
  { intros s k Hk. unfold to_float. destruct (float_of_str s); cbn [mbind result_bind].
    - apply Hk.
    - intros [= <-]. right. right. eauto. }
  assert (∀ g i v (k : list slot → result weights_state),
            (∀ ws, k ws ≠ Raise e) →
            (j ← int_of_float_text g; ws ← setitem (ws_new_weights st) (j - i) v; k ws) = Raise e →
            e = IndexError ∨ e = OverflowError ∨ ∃ msg, e = ValueError msg) as Hidx.
  { intros g i v k Hk. unfold int_of_float_text.
    destruct (Str.partition "." g) as [[digits ?] ?].
    destruct (decimal_value digits); [|intros [= <-]; right; right; eauto].
    destruct (round_double _); [|intros [= <-]; right; by left].
    cbn [mbind result_bind]. unfold setitem.
    repeat case_match; cbn [mbind result_bind]; try (intros Hr; by destruct (Hk _ Hr)).
    intros [= <-]. by left. }
  destruct (Re.search prior_re _) as [m|].
  { apply Hfloat. intros w. destruct (rmap !! _); [done|].
    intros [= <-]. right. right. unfold prior_error. eauto. }
  destruct (Re.search soft_re _) as [m|].
  { apply Hfloat. intros w. by apply Hidx. }
  destruct (Re.search hard_re _) as [m|].
  { by apply Hidx. }
  intros [= <-]. right. right. unfold parse_error. eauto.
Qed.

Lemma parse_weights_lines_frame rmap (lines : list string) (st : weights_state) :
  match parse_weights_lines rmap st lines with
  | Ok st' =>
      length (ws_new_weights st') = length (ws_new_weights st)
      ∧ Forall2 prior_set (ws_relations st) (ws_relations st')
  | Raise e => e = IndexError ∨ e = OverflowError ∨ ∃ msg, e = ValueError msg
  end.
Proof.
  revert st. induction lines as [|line lines IH]; intros st.
  - cbn. split; [done|apply Forall2_prior_set_refl].
  - cbn [parse_weights_lines].
    destruct (parse_weights_line rmap st line) as [st1|e] eqn:H1; cbn [mbind result_bind].
    + apply parse_weights_line_frame in H1 as [Hlen Hrel].
      specialize (IH st1). destruct (parse_weights_lines rmap st1 lines); [|done].
      destruct IH as [Hlen' Hrel']. split; [congruence|].
      by eapply Forall2_prior_set_trans.
    + by eapply parse_weights_line_raises.
Qed.

End frame.

(** X9.  What [learn] keeps.  [learn] returns exactly when [_parse_weights]
    does (the loop [weights[i]] over the rules is always in range); it then
    leaves the number, the order and the text of the rules as they were and
    gives rule [i] the slot [i] of the parsed list; a relation is unchanged
    or has got a prior weight, and nothing else of it changes.  When it
    fails, the exception is the parser's: ValueError, IndexError or
    OverflowError. *)
Theorem learn_frame `{PyFloat} (self : Tuffy) (output : list string) :
  match learn self output with
  | Ok self' =>
      ∃ weights,
        _parse_weights self output = Ok (weights, _relations self')
        ∧ length weights = length (_rules self)
        ∧ _rules self' = zip_with (fun r w => Rule.set_weight w r) (_rules self) weights
        ∧ Rule.text <$> _rules self' = Rule.text <$> _rules self
        ∧ Forall2 prior_set (_relations self) (_relations self')
  | Raise e =>
      _parse_weights self output = Raise e
      ∧ (e = IndexError ∨ e = OverflowError ∨ ∃ msg, e = ValueError msg)
  end.
Proof.
  unfold learn, _parse_weights.
  pose proof (parse_weights_lines_frame (relation_map self) output (weights_init self)) as Hf.
  destruct (parse_weights_lines _ _ output) as [st|e]; cbn [mbind result_bind]; [|done].
  destruct Hf as [Hlen Hrel]. cbn [weights_init ws_new_weights ws_relations] in Hlen, Hrel.
  rewrite length_replicate in Hlen.
  rewrite apply_weights_zip by lia. cbn [mbind result_bind _rules _relations].
  exists (ws_new_weights st). rewrite drop_0.
  split; [done|]. split; [done|]. split; [done|]. split; [|done].
  clear Hrel. revert Hlen. generalize (ws_new_weights st). generalize (_rules self).
  induction l as [|r l IH]; intros [|w ws] Hlen; try done.
  cbn. f_equal. apply IH. cbn in Hlen. lia.
Qed.

(** ** The two lookups of a relation by name *)

Section lookups.
Context `{PyFloat}.



End lookups.


(** ** The query file read back as the engine's output *)













Section echo.
Context `{PyFloat}.










End echo.

Section echo_lines.
Context `{PyFloat}.




End echo_lines.

Section echo_entries.
Context `{PyFloat}.




Lemma store_entries_const (v : float) (es : list (list string * float))
    (d : option (gmap (list string) float)) :
  Forall (fun e => e.2 = v) es → es ≠ [] →
  ∃ d', store_entries d es = Some d'
        ∧ ∀ k, d' !! k = if bool_decide (k ∈ es.*1) then Some v else default ∅ d !! k.
Proof.
  revert d. induction es as [|e es IH]; intros d Hall Hne; [done|].
  apply Forall_cons in Hall as [He Hall]. unfold store_entries. cbn [foldl].
  fold (store_entries (Some (<[e.1 := e.2]> (default ∅ d))) es).
  destruct es as [|e' es'].
  - eexists. split; [done|]. intros k. cbn.
    case_bool_decide as Hk.
    + apply list_elem_of_singleton in Hk as ->. by rewrite lookup_insert_eq, He.
    + rewrite lookup_insert_ne; [done|]. intros <-. apply Hk. by left.
  - destruct (IH (Some (<[e.1 := e.2]> (default ∅ d))) Hall) as (d' & Hd' & Hk); [done|].
    exists d'. split; [done|]. intros k. rewrite Hk. cbn [default from_option id].
    rewrite (fmap_cons fst e).
    destruct (decide (k ∈ (e' :: es').*1)) as [Hin|Hout].
    + rewrite !bool_decide_eq_true_2; [done|by right|done].
    + rewrite (bool_decide_eq_false_2 _ Hout).
      destruct (decide (k = e.1)) as [->|Hk1].
      * rewrite bool_decide_eq_true_2 by by left. by rewrite lookup_insert_eq, He.
      * rewrite bool_decide_eq_false_2 by by intros [?|?]%elem_of_cons.
        by rewrite lookup_insert_ne.
Qed.

End echo_entries.



(** ** The adapter and its host *)

Section runs.
Context `{PyFloat}.
Context {host : Type} (respond : host → ∀ o : op, (reply o + host_error) * host).

Lemma run_bind {R S : Type} (p : prog R) (f : R → prog S) (h : host) :
  run host respond (prog_bind p f) h =
  let '(t1, h1, r) := run host respond p h in
  let '(t2, h2, s) := run host respond (f r) h1 in
  (t1 ++ t2, h2, s).
Proof.
  revert h. induction p as [r|o k IH]; intros h; cbn [prog_bind run].
  - by destruct (run host respond (f r) h) as [[t2 h2] s].
  - destruct (respond h o) as [x h1]. rewrite IH.
    destruct (run host respond (k x) h1) as [[t1 h1'] r].
    by destruct (run host respond (f r) h1') as [[t2 h2] s].
Qed.

Lemma runs_ret {A} (a : A) self h t h' self' out :
  runs respond (mret a) self h t h' self' out →
  t = [] ∧ h' = h ∧ self' = self ∧ out = Done a.
Proof. by intros [= <- <- <- <-]. Qed.

Lemma runs_throw {A} (e : failure) self h t h' self' (out : outcome A) :
  runs respond (throw e) self h t h' self' out →
  t = [] ∧ h' = h ∧ self' = self ∧ out = Threw e.
Proof. by intros [= <- <- <- <-]. Qed.

Lemma runs_get self h t h' self' out :
  runs respond get self h t h' self' out →
  t = [] ∧ h' = h ∧ self' = self ∧ out = Done self.
Proof. by intros [= <- <- <- <-]. Qed.


Lemma runs_lift {A} (r : result A) self h t h' self' out :
  runs respond (lift r) self h t h' self' out →
  t = [] ∧ h' = h ∧ self' = self
  ∧ match r with Ok a => out = Done a | Raise e => out = Threw (Raised e) end.
Proof. destruct r; by intros [= <- <- <- <-]. Qed.

Lemma runs_call (o : op) self h t h' self' out :
  runs respond (call o) self h t h' self' out →
  ∃ x, t = [Event o x] ∧ self' = self
       ∧ match x with inl v => out = Done v | inr e => out = Threw (HostError e) end.
Proof.
  unfold runs, call. cbn [run]. destruct (respond h o) as [[v|e] h1];
    cbn [run]; intros [= <- <- <- <-]; by eexists.
Qed.

Lemma runs_bind {A B} (m : action A) (f : A → action B) self h t h' self' out :
  runs respond (m ≫= f) self h t h' self' out →
  ∃ t1 h1 self1 r1,
    runs respond m self h t1 h1 self1 r1
    ∧ match r1 with
      | Done a => ∃ t2, runs respond (f a) self1 h1 t2 h' self' out ∧ t = t1 ++ t2
      | Threw e => t = t1 ∧ h' = h1 ∧ self' = self1 ∧ out = Threw e
      end.
Proof.
  unfold runs, mbind, action_mbind, action_bind. rewrite run_bind.
  destruct (run host respond (m self) h) as [[t1 h1] [self1 r1]].
  destruct r1 as [a|e].
  - destruct (run host respond (f a self1) h1) as [[t2 h2] [self2 r2]] eqn:E.
    intros [= <- <- <- <-]. exists t1, h1, self1, (Done a). split; [done|].
    by exists t2.
  - cbn [run]. intros [= <- <- <- <-]. exists t1, h1, self1, (Threw e).
    by rewrite app_nil_r.
Qed.


End runs.

(** *** What a trace shows, piece by piece *)

Lemma made_app t1 t2 : made (t1 ++ t2) = made t1 ++ made t2.
Proof. apply flat_map_app. Qed.
Lemma written_app t1 t2 : written (t1 ++ t2) = written t1 ++ written t2.
Proof. apply flat_map_app. Qed.
Lemma read_app t1 t2 : read (t1 ++ t2) = read t1 ++ read t2.
Proof. apply flat_map_app. Qed.
Lemma removed_app t1 t2 : removed (t1 ++ t2) = removed t1 ++ removed t2.
Proof. apply flat_map_app. Qed.
Lemma ran_app t1 t2 : ran (t1 ++ t2) = ran t1 ++ ran t2.
Proof. apply flat_map_app. Qed.
Lemma touched_app t1 t2 : touched (t1 ++ t2) = touched t1 ++ touched t2.
Proof. apply flat_map_app. Qed.
Lemma docker_calls_app t1 t2 : docker_calls (t1 ++ t2) = docker_calls t1 ++ docker_calls t2.
Proof. apply flat_map_app. Qed.
Lemma printed_app t1 t2 : printed (t1 ++ t2) = printed t1 ++ printed t2.
Proof. apply flat_map_app. Qed.




Lemma app_cons_nonempty {A} (l : list A) (x : A) (k : list A) : l ++ x :: k ≠ [].
Proof. by destruct l. Qed.


Lemma last_op_cons e t : t ≠ [] → last_op (e :: t) = last_op t.
Proof. intros Hne. unfold last_op. by destruct t. Qed.

Lemma last_op_app_r t1 t2 : t2 ≠ [] → last_op (t1 ++ t2) = last_op t2.
Proof.
  intros Hne. unfold last_op. rewrite last_app.
  by destruct (last t2) eqn:E; [|apply last_None in E].
Qed.

Ltac last_op :=
  cbn [app];
  repeat first
    [ rewrite last_op_cons by first [assumption | done | apply app_cons_nonempty]
    | rewrite last_op_app_r by first [assumption | done | apply app_cons_nonempty] ];
  try done.


Ltac trace_app :=
  rewrite ?made_app, ?written_app, ?read_app, ?removed_app, ?ran_app, ?touched_app,
    ?docker_calls_app, ?printed_app.

Section methods.
Context `{PyFloat}.
Context {host : Type} (respond : host → ∀ o : op, (reply o + host_error) * host).
Variable THIS_DIR : string.

Lemma runs_write_file path lines self h t h' self' out :
  runs respond (Run._write_file path lines) self h t h' self' out →
  ∃ x, t = [Event (WriteText path (_write_file lines)) x] ∧ self' = self
       ∧ match x with inl _ => out = Done tt | inr e => out = Threw (HostError e) end.
Proof.
  unfold Run._write_file. intros Hr.
  apply (runs_call respond (WriteText path (_write_file lines))) in Hr as (x & -> & -> & Hx).
  exists x. split; [done|]. split; [done|].
  destruct x as [[]|e]; done.
Qed.

Lemma runs_write_program path self h t h' self' out :
  runs respond (Run._write_program path) self h t h' self' out →
  ∃ program x,
    _write_program (state self) = Ok program
    ∧ t = [Event (WriteText path (_write_file program)) x] ∧ self' = self
    ∧ match x with inl _ => out = Done tt | inr e => out = Threw (HostError e) end.
Proof.
  unfold Run._write_program.
  intros (t1 & h1 & self1 & r1 & (-> & -> & -> & ->)%runs_get & (t2 & Hrest & ->))%runs_bind.
  destruct (write_program_shape (state self)) as (ls & _ & _ & Hprog).
  rewrite Hprog in Hrest |- *.
  apply runs_bind in Hrest
    as (t1 & h1 & self1 & r1 & (-> & -> & -> & ->)%runs_lift & (t3 & Hw & ->)).
  apply runs_write_file in Hw as (x & -> & -> & Hx). by eexists _, x.
Qed.

Lemma runs_write_evidence path self h t h' self' out :
  runs respond (Run._write_evidence path) self h t h' self' out →
  self' = self
  ∧ match _write_evidence (state self) with
    | Ok evidence =>
        ∃ x, t = [Event (WriteText path (_write_file evidence)) x]
             ∧ match x with inl _ => out = Done tt | inr e => out = Threw (HostError e) end
    | Raise e => t = [] ∧ out = Threw (Raised e) ∧ h' = h
    end.
Proof.
  unfold Run._write_evidence.
  intros (t1 & h1 & self1 & r1 & (-> & -> & -> & ->)%runs_get & (t2 & Hrest & ->))%runs_bind.
  apply runs_bind in Hrest as (t1 & h1 & self1 & r1 & (-> & -> & -> & Hr)%runs_lift & Hrest).
  destruct (_write_evidence (state self)) as [evidence|e]; subst r1.
  - destruct Hrest as (t3 & Hw & ->).
    apply runs_write_file in Hw as (x & -> & -> & Hx). split; [done|]. by exists x.
  - by destruct Hrest as (-> & -> & -> & ->).
Qed.

Lemma runs_write_query path self h t h' self' out :
  runs respond (Run._write_query path) self h t h' self' out →
  ∃ x, t = [Event (WriteText path (_write_file (_write_query (state self)))) x]
       ∧ self' = self
       ∧ match x with inl _ => out = Done tt | inr e => out = Threw (HostError e) end.
Proof.
  unfold Run._write_query.
  intros (t1 & h1 & self1 & r1 & (-> & -> & -> & ->)%runs_get & (t2 & Hrest & ->))%runs_bind.
  apply runs_write_file in Hrest as (x & -> & -> & Hx). by exists x.
Qed.


Lemma runs_prep_run self h t h' self' out :
  runs respond Run._prep_run self h t h' self' out →
  self' = self ∧ docker_calls t = [] ∧ read t = [] ∧ removed t = [] ∧ ran t = []
  ∧ printed t = [] ∧ confined t
  ∧ match out with
    | Done (d, o) =>
        o = path_join d OUTPUT_FILENAME ∧ made t = [d]
        ∧ ∃ program evidence,
            _write_program (state self) = Ok program
            ∧ _write_evidence (state self) = Ok evidence
            ∧ written t =
                [(path_join d PROGRAM_FILENAME, _write_file program);
                 (path_join d EVIDENCE_FILENAME, _write_file evidence);
                 (path_join d QUERY_FILENAME, _write_file (_write_query (state self)))]
    | Threw (Raised e) =>
        _write_evidence (state self) = Raise e
        ∧ ∃ d program,
            made t = [d] ∧ _write_program (state self) = Ok program
            ∧ written t = [(path_join d PROGRAM_FILENAME, _write_file program)]
    | Threw (HostError e) => last_error t = Some e
    | Threw _ => False
    end.
Proof.
  unfold Run._prep_run. intros Hr.
  apply runs_bind in Hr as (t0 & h0 & self0 & r0 & H0 & Hr).
  apply (runs_call respond (Mkdtemp TEMP_DIR_PREFIX)) in H0 as ([d|e] & -> & -> & ->).
  2:{ destruct Hr as (-> & -> & -> & ->). by repeat split. }
  destruct Hr as (t1 & Hr & ->). cbv zeta in Hr.
  apply runs_bind in Hr as (t2 & h2 & self2 & r2 & H2 & Hr).
  apply runs_write_program in H2 as (program & [[]|e] & Hprog & -> & -> & ->).
  2:{ destruct Hr as (-> & -> & -> & ->). repeat split; try done.
      unfold confined; cbn; confine. }
  destruct Hr as (t3 & Hr & ->).
  apply runs_bind in Hr as (t4 & h4 & self4 & r4 & H4 & Hr).
  apply runs_write_evidence in H4 as (-> & H4).
  destruct (_write_evidence (state self)) as [evidence|e] eqn:Hev.
  2:{ destruct H4 as (-> & -> & ->). destruct Hr as (-> & -> & -> & ->).
      repeat split; try done; [unfold confined; cbn; confine|].
      by exists d, program. }
  destruct H4 as ([[]|e] & -> & ->).
  2:{ destruct Hr as (-> & -> & -> & ->). repeat split; try done.
      unfold confined; cbn; confine. }
  destruct Hr as (t5 & Hr & ->).
  apply runs_bind in Hr as (t6 & h6 & self6 & r6 & H6 & Hr).
  apply runs_write_query in H6 as ([[]|e] & -> & -> & ->).
  2:{ destruct Hr as (-> & -> & -> & ->). repeat split; try done.
      unfold confined; cbn; confine. }
  destruct Hr as (t7 & Hr & ->).
  apply runs_ret in Hr as (-> & -> & -> & ->).
  repeat split; try done; [unfold confined; cbn; confine|].
  by exists program, evidence.
Qed.


Lemma no_files_app t1 t2 : no_files t1 → no_files t2 → no_files (t1 ++ t2).
Proof.
  intros (H1 & H2 & H3 & H4 & H5) (K1 & K2 & K3 & K4 & K5). unfold no_files.
  trace_app. by rewrite H1, H2, H3, H4, H5, K1, K2, K3, K4, K5.
Qed.

Lemma no_files_nil : no_files [].
Proof. by repeat split. Qed.

Ltac no_files := repeat (apply no_files_app); first [assumption | by repeat split].















End methods.







Section constructor.
Context `{PyFloat}.

Lemma missing_types_Exists (relations : list argument) (b : bool) :
  foldl (fun missing relation => if negb (has_types relation) then true else missing)
        b relations = true
  ↔ b = true ∨ Exists (fun r => has_types r = false) relations.
Proof.
  revert b. induction relations as [|r rs IH]; intros b; cbn [foldl].
  - split; [by left|]. intros [?|Hex]; [done|]. by apply Exists_nil in Hex.
  - rewrite IH, Exists_cons. destruct (has_types r), b; cbn; intuition congruence.
Qed.

End constructor.

(** X14.  The constructor, against any host.  It returns an object exactly
    for relations that all have variable types, and the object then holds
    the relations, the rules and the [cleanup_files] flag as given, with a
    generator seeded by the given seed or, without one, by one draw of
    [random.randint(0, 2 ** 31)].  When a relation has no variable types,
    the warning is printed and the call of [_infer_variable_types], which
    neither Tuffy nor BaseEngine defines, raises AttributeError: no engine
    is constructed. *)
Theorem constructor_types `{PyFloat} {host : Type}
    (respond : host → ∀ o : op, (reply o + host_error) * host)
    (relations : list argument) (rules : list Rule.t) (cleanup_files : bool)
    (seed : option Z) (h : host) (t : list event) (h' : host) (out : outcome instance) :
  run host respond (Run.__init__ relations rules cleanup_files seed) h = (t, h', out) →
  match out with
  | Done self =>
      Forall (fun r => has_types r = true) relations
      ∧ state self = mkTuffy _ (relation <$> relations) rules
      ∧ _cleanup_files self = cleanup_files
      ∧ printed t = []
      ∧ match seed with
        | Some s => _rng self = s ∧ t = []
        | None => t = [Event (Randint 0 (2 ^ 31)) (inl (_rng self))]
        end
  | Threw (AttributeError attr) =>
      attr = "_infer_variable_types"
      ∧ Exists (fun r => has_types r = false) relations
      ∧ printed t =
          ["Warning: Required types are missing for Tuffy, inferring types." +:+ NL]
  | Threw (HostError e) => last_error t = Some e
  | Threw _ => False
  end.
Proof.
  unfold Run.__init__, BaseEngine.__init__. intros Hr.
  set (missing := foldl _ false relations) in Hr.
  assert (missing = true ↔ Exists (fun r => has_types r = false) relations) as Hmiss.
  { unfold missing. rewrite missing_types_Exists. intuition congruence. }
  assert (missing = false → Forall (fun r => has_types r = true) relations) as Hall.
  { intros Hm. apply Forall_forall. intros r Hin.
    destruct (has_types r) eqn:Hr'; [done|].
    assert (missing = true) as Hc; [|congruence].
    apply Hmiss, Exists_exists. by exists r. }
  destruct seed as [s|]; cbn [prog_bind run] in Hr.
  - destruct missing; cbn [prog_bind run] in Hr.
    + destruct (respond h (Stdout _)) as [[[]|e] h1] eqn:E; cbn [run] in Hr;
        injection Hr as <- <- <-; [|done].
      split; [done|]. split; [by apply Hmiss|done].
    + injection Hr as <- <- <-. repeat split; try done. by apply Hall.
  - destruct (respond h (Randint 0 (2 ^ 31))) as [[rng|e] h1] eqn:E;
      cbn [prog_bind run] in Hr.
    2:{ by injection Hr as <- <- <-. }
    destruct missing; cbn [prog_bind run] in Hr.
    + destruct (respond h1 (Stdout _)) as [[[]|e] h2] eqn:E2; cbn [run] in Hr;
        injection Hr as <- <- <-; [|done].
      split; [done|]. split; [by apply Hmiss|done].
    + injection Hr as <- <- <-. repeat split; try done. by apply Hall.
Qed.

Lemma constructor_types_witness :
  ∃ t,
    run unit (scripted [])
        (Run.__init__ (H := Micro.micro)
           [mkArgument _ friends true; mkArgument _ smokes false] three_rules true None) tt
    = (t, tt, Threw (AttributeError "_infer_variable_types"))
    ∧ printed t =
        ["Warning: Required types are missing for Tuffy, inferring types." +:+ NL].
Proof.
  eexists. split; [reflexivity|].
  by destruct (constructor_types (H := Micro.micro) (scripted [])
                 [mkArgument _ friends true; mkArgument _ smokes false] three_rules true None
                 tt _ tt _ eq_refl)
    as (_ & _ & Hprinted).
Defined.

(** ** Further properties of the parsers *)

Section values.
Context `{PyFloat}.

Lemma entries_for_values (self : Tuffy) (key : option nat) (lines : list string) :
  Forall (fun e => e.2 = f_one) (entries_for self false key lines).
Proof.
  induction lines as [|l lines IH]; [constructor|].
  rewrite entries_for_cons. apply Forall_app. split; [|done].
  case_bool_decide; [constructor|]. case_bool_decide; [|constructor].
  cbn [result_value]. by repeat constructor.
Qed.

End values.

(** X15.  [solve] reports no degree of belief: it reads the output without
    the value column, so every row it returns ends in 1.0 or in 0.0.  The
    relations in the result are those with query rows, and the rows of each
    are its query rows, cut to the arity, in their order. *)
Theorem solve_values `{PyFloat} (self : Tuffy) (output : list string)
    (results : gmap nat (list row)) :
  solve self output = Ok results →
  ∀ j,
    match results !! j with
    | Some rows =>
        ∃ rel, _relations self !! j = Some rel
               ∧ Relation.has_unobserved_data rel = true
               ∧ rows.*1 = take (Relation.arity rel) <$> Relation.get_unobserved_data rel
               ∧ Forall (fun r : row => r.2 = f_zero ∨ r.2 = f_one) rows
    | None =>
        ∀ rel, _relations self !! j = Some rel →
               Relation.has_unobserved_data rel = false
    end.
Proof.
  unfold solve.
  destruct (read_results_default self output) as (raw & -> & Hraw).
  cbn [mbind result_bind]. intros Hs j.
  assert (∀ j rel, _relations self !! j = Some rel →
                   Relation.has_unobserved_data rel = true →
                   is_Some (raw !! Some (0 + j)%nat)) as Hall.
  { intros k rel Hk Hu. destruct (raw !! Some (0 + k)%nat) eqn:Hd; [eauto|].
    by rewrite (solve_relations_missing raw _ 0 ∅ k rel Hk Hu Hd) in Hs. }
  destruct (solve_relations_found raw (_relations self) 0 ∅ Hall) as (out & Hout & Hk).
  rewrite Hs in Hout. injection Hout as <-.
  rewrite Hk, bool_decide_eq_true_2, Nat.sub_0_r by lia.
  destruct (_relations self !! j) as [rel|] eqn:Hj; [|by rewrite lookup_empty].
  destruct (Relation.has_unobserved_data rel) eqn:Hu.
  2:{ rewrite lookup_empty. by intros ? [= <-]. }
  destruct (Hall j rel Hj Hu) as [d Hd]. rewrite Nat.add_0_l in Hd. rewrite Hd.
  cbn [fmap option_fmap option_map].
  exists rel. split; [done|]. split; [done|]. split.
  - rewrite <- list_fmap_compose. by apply list_fmap_ext.
  - apply Forall_fmap, Forall_forall. intros r _. unfold solved_row. cbn.
    rewrite Hraw in Hd.
    destruct (entries_for self false (Some j) output) as [|e es] eqn:He; [done|].
    destruct (store_entries_const f_one (e :: es) None) as (d' & Hd' & Hlook); [|done|].
    { rewrite <- He. apply entries_for_values. }
    rewrite Hd' in Hd. injection Hd as <-. rewrite Hlook.
    case_bool_decide; [by right|]. cbn. rewrite lookup_empty. by left.
Qed.

Lemma solve_values_witness :
  ∃ results rows,
    solve (engine (H := Micro.micro)) ["Friends(a, b)" +:+ TAB +:+ "0.75"] = Ok results
    ∧ results !! 0%nat = Some rows
    ∧ Forall (fun r : row (H := Micro.micro) => r.2 = 0%Z ∨ r.2 = 1000000%Z) rows.
Proof.
  eexists _, _. split; [reflexivity|]. split; [reflexivity|].
  pose proof (solve_values (H := Micro.micro) engine
                ["Friends(a, b)" +:+ TAB +:+ "0.75"] _ eq_refl 0%nat) as Hv.
  by destruct Hv as (rel & _ & _ & _ & Hrows).
Defined.

Section last_wins.
Context `{PyFloat}.



End last_wins.



(** X17.  [_prep_run], against any host.  It makes one directory with the
    prefix [srli.tuffy.], and writes into it, in this order, [prog.mln],
    [evidence.db] and [query.db], each with the lines of its writer, every
    line followed by a newline; it returns the directory and the path of
    [out.txt] in it, calls nothing else and leaves the object as it was.
    When a weight of the evidence is no float, the program file alone is
    written and the error is raised; the directory stays. *)
Theorem prep_run_files `{PyFloat} {host : Type}
    (respond : host → ∀ o : op, (reply o + host_error) * host)
    (self : instance) (h : host) (t : list event) (h' : host) (self' : instance)
    (out : outcome (string * string)) :
  runs respond Run._prep_run self h t h' self' out →
  self' = self ∧ docker_calls t = [] ∧ read t = [] ∧ removed t = [] ∧ ran t = []
  ∧ printed t = [] ∧ confined t
  ∧ match out with
    | Done (d, o) =>
        o = path_join d "out.txt" ∧ made t = [d]
        ∧ ∃ program evidence,
            _write_program (state self) = Ok program
            ∧ _write_evidence (state self) = Ok evidence
            ∧ written t =
                [(path_join d "prog.mln", _write_file program);
                 (path_join d "evidence.db", _write_file evidence);
                 (path_join d "query.db", _write_file (_write_query (state self)))]
    | Threw (Raised e) =>
        _write_evidence (state self) = Raise e
        ∧ ∃ d program,
            made t = [d] ∧ _write_program (state self) = Ok program
            ∧ written t = [(path_join d "prog.mln", _write_file program)]
    | Threw (HostError e) => last_error t = Some e
    | Threw _ => False
    end.
Proof. apply runs_prep_run. Qed.

Lemma prep_run_files_witness :
  ∃ t,
    runs (scripted []) Run._prep_run
         (mkInstance (engine (H := Micro.micro)) 0 true) tt t tt
         (mkInstance (engine (H := Micro.micro)) 0 true)
         (Done ("/tmp/srli.tuffy.0", "/tmp/srli.tuffy.0/out.txt"))
    ∧ written t =
        [("/tmp/srli.tuffy.0/prog.mln",
          "Friends(person, person)" +:+ NL +:+ "*Smokes(person)" +:+ NL +:+ NL +:+
          "Smokes(a) => Smokes(a) ." +:+ NL +:+
          "Friends(a, b) => Friends(b, a) ." +:+ NL +:+
          "Friends(a, b) , Smokes(a) => Smokes(b) ." +:+ NL);
         ("/tmp/srli.tuffy.0/evidence.db",
          "0.500000 Smokes(New_York)" +:+ NL +:+ "Smokes(x)" +:+ NL);
         ("/tmp/srli.tuffy.0/query.db",
          "Friends(a, b)" +:+ NL +:+ "Friends(b, c)" +:+ NL)].
Proof.
  eexists. split; [reflexivity|].
  destruct (prep_run_files (H := Micro.micro) (scripted [])
              (mkInstance engine 0 true) tt _ tt _ _ eq_refl)
    as (_ & _ & _ & _ & _ & _ & _ & _ & _ & program & evidence & Hp & He & Hw).
  reflexivity.
Defined.
